(** * OpenArm CAN control-mode tools

    A shallow embedding of the two driver programs of the repository,
    [src/apps/query_control_mode.cpp] and [src/apps/set_control_mode.cpp],
    and the properties of their command-line handling, motor tables,
    operator-input validation, call sequencing and error handling.

    Each [main] is embedded as a computation in a small monad that threads the
    state of the [OpenArm] object, may throw a [std::exception], and records
    every console output and every call into the OpenArm library.  The
    library ([openarm/can/socket/openarm.hpp]) and the constants header
    ([openarm/damiao_motor/dm_motor_constants.hpp]) are collaborators of the
    programs: the constants are parameters of the development and the
    library operations are modelled from their specification. *)

From Stdlib Require Import ZArith QArith Qround Qabs String Ascii List Lia Lqa.
From Stdlib Require Import DecimalString DecimalZ DecimalPos.
From stdpp Require Import base decidable option list gmap.
From Equations Require Import Equations.
Import ListNotations.

Open Scope string_scope.
Open Scope Z_scope.

(* ===================================================================== *)
(** * Text *)
(* ===================================================================== *)

(** ['\n'] and [std::endl]: both put a line feed on the stream. *)
Definition nl : string := String (ascii_of_N 10) EmptyString.

(** [std::tolower] on an [unsigned char], in the "C" locale the programs
    run in (neither calls [setlocale]): the 26 capital letters move down,
    every other character is returned as it is. *)
Definition tolower (c : ascii) : ascii :=
  let n := N_of_ascii c in
  if ((65 <=? n) && (n <=? 90))%N then ascii_of_N (n + 32) else c.

(** [std::transform(s.begin(), s.end(), s.begin(), f)]. *)
Fixpoint transform (f : ascii -> ascii) (s : string) : string :=
  match s with
  | EmptyString => EmptyString
  | String c s' => String (f c) (transform f s')
  end.

(** [std::to_string] on an integer: its decimal digits, with a leading
    minus sign when negative. *)
Definition to_string (z : Z) : string := NilZero.string_of_int (Z.to_int z).

(** [argv[i]] for an index below [argc]: the programs read [argv[1]] when
    [argc] is 2 or 3 and [argv[2]] when it is 3.  ([argv[0]], which the
    usage branch streams, is handled in [usage].) *)
Definition arg (argv : list string) (i : nat) : string := nth i argv "".

(* ===================================================================== *)
(** * Integer types *)
(* ===================================================================== *)

Definition INT32_MIN : Z := - 2 ^ 31.
Definition INT32_MAX : Z := 2 ^ 31 - 1.

(** [static_cast<int32_t>]: values wrap around into [-2^31 .. 2^31-1]. *)
Definition int32_t (z : Z) : Z := (z + 2 ^ 31) mod 2 ^ 32 - 2 ^ 31.

(** [static_cast<size_t>] and [size_t] arithmetic, on a 64-bit target:
    values wrap around modulo [2^64]. *)
Definition size_t (z : Z) : Z := z mod 2 ^ 64.

(** The values [i, i+1, ...] visited by
    [for (size_t i = lo; i < hi; ++i)], where [hi] is converted to
    [size_t] and the increment is the wrapping [size_t] increment. *)
Equations? size_t_range (i hi : Z) : list Z by wf (Z.to_nat (size_t hi - i)) lt :=
  size_t_range i hi with Z_lt_dec i (size_t hi) := {
    | left _ => i :: size_t_range (size_t (i + 1)) hi;
    | right _ => [] }.
Proof.
  unfold size_t in *.
  pose proof (Z.mod_pos_bound hi (2 ^ 64) ltac:(lia)).
  destruct (Z_lt_dec i (-1)).
  - pose proof (Z.mod_pos_bound (i + 1) (2 ^ 64) ltac:(lia)). lia.
  - rewrite (Z.mod_small (i + 1)) by lia. lia.
Qed.

(* ===================================================================== *)
(** * Command line: the flexible-data-mode flag *)
(* ===================================================================== *)

(** Both programs, lines 34-42 of [query_control_mode.cpp] and 35-43 of
    [set_control_mode.cpp]:
<<
    bool can_fd { false };
    if(argc == 3) {
        std::string can_fd_string { argv[2] };
        std::transform(..., [](unsigned char c){ return std::tolower(c); });
        can_fd = (can_fd_string == "true");
    }
>> *)
Definition parse_can_fd (argv : list string) : bool :=
  if (Z.of_nat (length argv) =? 3)%Z
  then String.eqb (transform tolower (arg argv 2)) "true"
  else false.

(** The argument-count test [argc != 2 && argc != 3]. *)
Definition bad_argc (argv : list string) : bool :=
  negb (Z.of_nat (length argv) =? 2)%Z && negb (Z.of_nat (length argv) =? 3)%Z.

(** What the usage branch puts on the error stream (lines 28 and 29):
<<
    std::cerr << "Usage: " << argv[0] << " "
              << " <can interface> <optional fd mode: ...>" << std::endl;
>>
    With [argc = 0] the pointer [argv[0]] is null.  Streaming it is
    undefined in the language; the C++ library puts the stream in its
    failed state there, and a failed stream drops everything that follows,
    so only ["Usage: "] is written. *)
Definition usage (argv : list string) : string :=
  match argv with
  | argv0 :: _ =>
      "Usage: " ++ argv0 ++ " " ++
      " <can interface> <optional fd mode: true/false. default: false>" ++ nl
  | [] => "Usage: "
  end.

(* ===================================================================== *)
(** * The constants header and the environment of a run *)
(* ===================================================================== *)

(** [openarm::damiao_motor::MotorType]: the motor classes the two programs
    name. *)
Inductive MotorType : Set := DM8009 | DM4340 | DM4310.

(** [openarm::damiao_motor::CallbackMode]: how the next inbound frame of a
    motor is decoded. *)
Inductive CallbackMode : Set := STATE | PARAM.

#[global] Instance MotorType_eq_dec : EqDecision MotorType.
Proof. solve_decision. Defined.
#[global] Instance CallbackMode_eq_dec : EqDecision CallbackMode.
Proof. solve_decision. Defined.

(** What the programs take from [dm_motor_constants.hpp], which is not
    among the sources at hand: the two sentinels of [MotorControlMode] (as
    the integers their enumerators stand for), the number of the
    control-mode register [RID::CTRL_MODE], and the name of a mode code.
    The programs always reach [GetMotorControlModeString] through
    [static_cast<MotorControlMode>(code)], so it is taken on the integer
    code; it is total, codes of no mode having a name too. *)
Record dm_motor_constants : Type := {
  minMode : Z;
  maxMode : Z;
  GetMotorControlModeString : Z -> string;
  CTRL_MODE : Z
}.

(** A decoded inbound frame: the bus address it comes from, and the
    register and value of the parameter reply it carries. *)
Record frame : Type := {
  source_addr : Z;
  frame_rid : Z;
  frame_value : Q
}.

(** Everything outside the program that a run depends on. *)
Record environment : Type := {
  (** [fault n = Some what]: the [n]-th fallible call into the OpenArm
      library (counted from 0) throws a [std::exception] whose [what()] is
      [what]. *)
  fault : nat -> option string;
  (** The frames the bus delivers while the [n]-th fallible call, when it
      is a [recv_all], is collecting. *)
  inbound : nat -> list frame;
  (** What [std::cin >> target] extracts from the operator's input:
      [Some v] when the input, after leading white space, starts with the
      decimal numeral of the integer [v] (whatever follows it is left
      unread); [None] when no integer can be extracted, the input
      starting with something else or being at its end. *)
  cin_entry : option Z;
  (** What [Motor::get_param] returns for a register never observed. *)
  get_param_absent : Q;
  (** What the machine yields for a [double] to [uint8_t] conversion the
      language leaves undefined (a value that does not fit). *)
  uint8_undefined : Q -> Z
}.

(** [std::cin >> target] for an [int32_t] initialised to 0: the extracted
    integer, clamped to the range of the type; 0 when no integer can be
    extracted. *)
Definition cin_int32 (entry : option Z) : Z :=
  match entry with
  | Some v => Z.max INT32_MIN (Z.min v INT32_MAX)
  | None => 0
  end.

(* ===================================================================== *)
(** * Stored parameter values and their narrowing to a mode code *)
(* ===================================================================== *)

(** [Motor::get_param] returns a [double].  A finite [double] is a
    rational number, and rounding and truncation are exact on it, so the
    stored value is carried as the rational it denotes. *)

(** Truncation toward zero: the integer part kept by a conversion from
    [double] to an integer type. *)
Definition Qtrunc (x : Q) : Z :=
  if Qle_bool 0 x then Qfloor x else Qceiling x.

(** [std::round]: the nearest integer, halfway cases away from zero. *)
Definition std_round (x : Q) : Z :=
  if Qle_bool 0 x then Qfloor (x + (1 # 2)) else Qceiling (x - (1 # 2)).

(** [static_cast<uint8_t>(d)] for a [double] [d]: the truncated value when
    it fits [0..255]; otherwise the language defines no result and the
    environment supplies one. *)
Definition double_to_uint8 (E : environment) (x : Q) : Z :=
  let t := Qtrunc x in
  if (0 <=? t) && (t <=? 255) then t else uint8_undefined E x.

(** The size of the fractional part of [x], as [std::modf] splits it
    (the fraction carries the sign of [x]). *)
Definition fraction (x : Q) : Q := (Qabs x - inject_Z (Qfloor (Qabs x)))%Q.

(* ===================================================================== *)
(** * Motors and the OpenArm object *)
(* ===================================================================== *)

(** Modelled from the spec: the [Motor] class of the OpenArm library, which
    is not among the sources at hand.  Spec 3: a motor has a class, a fixed
    pair of bus addresses, a callback mode, and the last observed value of
    each parameter. *)
Record Motor : Type := {
  motor_type : MotorType;
  send_can_id : Z;
  recv_can_id : Z;
  callback_mode : CallbackMode;
  temp_param_dict : gmap Z Q
}.

(** Modelled from the spec: the construction of a [Motor]; it starts in
    [STATE] mode, the mode of normal telemetry, with nothing observed. *)
Definition new_motor (t : MotorType) (send recv : Z) : Motor :=
  {| motor_type := t; send_can_id := send; recv_can_id := recv;
     callback_mode := STATE; temp_param_dict := ∅ |}.

(** Modelled from the spec: [set_mode] on one motor (4.2); only the
    decoding flag changes. *)
Definition with_callback_mode (mode : CallbackMode) (m : Motor) : Motor :=
  {| motor_type := motor_type m; send_can_id := send_can_id m;
     recv_can_id := recv_can_id m; callback_mode := mode;
     temp_param_dict := temp_param_dict m |}.

(** Modelled from the spec: [record_value] of the motor registry (4.1); it
    overwrites the stored value and keeps no history. *)
Definition record_value (rid : Z) (v : Q) (m : Motor) : Motor :=
  {| motor_type := motor_type m; send_can_id := send_can_id m;
     recv_can_id := recv_can_id m; callback_mode := callback_mode m;
     temp_param_dict := <[rid := v]> (temp_param_dict m) |}.

(** Modelled from the spec: [Motor::get_param], the [read_value] of 4.1 as
    the programs call it; it returns a [double], and what it returns for a
    register never observed is left to the environment. *)
Definition get_param (E : environment) (m : Motor) (rid : Z) : Q :=
  match temp_param_dict m !! rid with
  | Some v => v
  | None => get_param_absent E
  end.

(** Modelled from the spec: the handling of one inbound frame inside
    [recv_all] (4.3, step 4).  A frame is resolved to the motor with its
    inbound address; it is recorded when that motor is in [PARAM] mode and
    ignored otherwise; a frame of no motor changes nothing. *)
Definition deliver (f : frame) (m : Motor) : Motor :=
  if bool_decide (recv_can_id m = source_addr f)
     && bool_decide (callback_mode m = PARAM)
  then record_value (frame_rid f) (frame_value f) m
  else m.

(** Modelled from the spec: the collection window of [recv_all]; the
    frames are handled one after the other, in the order of arrival. *)
Definition deliver_all (frames : list frame) (motors : list Motor) : list Motor :=
  foldl (fun ms f => map (deliver f) ms) motors frames.

(** The state a run threads: the two motor groups of the [OpenArm] object
    (empty until they are initialised) and the number of fallible library
    calls made so far. *)
Record world : Type := {
  arm : list Motor;
  gripper : list Motor;
  calls_made : nat
}.

Definition initial_world : world :=
  {| arm := []; gripper := []; calls_made := 0 |}.

Definition all_motors (w : world) : list Motor := (arm w ++ gripper w)%list.

(** The calls into the OpenArm library, with their arguments. *)
Inductive call : Type :=
| COpenArm (can_interface : string) (can_fd : bool)
| CInitArmMotors (types : list MotorType) (sends recvs : list Z)
| CInitGripperMotor (t : MotorType) (send recv : Z)
| CSetCallbackModeAll (mode : CallbackMode)
| CQueryParamAll (rid : Z)
| CWriteParamAll (rid : Z) (value : Q)
| CRecvAll (timeout_ms : Z)
| CDisableAll.

(** What a run leaves to observe, in order: console output, and each
    library call together with the callback modes of all motors at the
    moment it is made. *)
Inductive entry : Type :=
| Cout (s : string)
| Cerr (s : string)
| Call (c : call) (modes : list CallbackMode).

Definition trace : Type := list entry.

(* ===================================================================== *)
(** * Computations: state, exceptions and the trace *)
(* ===================================================================== *)

Inductive outcome (A : Type) : Type :=
| Ok (a : A)
| Throw (what : string).
Arguments Ok {A} a.
Arguments Throw {A} what.

(** A computation runs from a state to an outcome, a state and the entries
    it adds to the trace. *)
Definition M (A : Type) : Type := world -> outcome A * world * trace.

Definition ret {A} (a : A) : M A := fun w => (Ok a, w, []).

Definition bind {A B} (m : M A) (k : A -> M B) : M B :=
  fun w =>
    match m w with
    | (Ok a, w1, t1) =>
        match k a w1 with (r, w2, t2) => (r, w2, (t1 ++ t2)%list) end
    | (Throw what, w1, t1) => (Throw what, w1, t1)
    end.

Notation "x <- m ;; k" := (bind m (fun x => k))
  (at level 100, m at next level, right associativity).
Notation "m ;; k" := (bind m (fun _ => k))
  (at level 100, right associativity).

(** [try { body } catch (const std::exception& e) { handler }]. *)
Definition try_catch {A} (body : M A) (handler : string -> M A) : M A :=
  fun w =>
    match body w with
    | (Ok a, w1, t1) => (Ok a, w1, t1)
    | (Throw what, w1, t1) =>
        match handler what w1 with (r, w2, t2) => (r, w2, (t1 ++ t2)%list) end
    end.

(** [emit t r]: the result [r] with [t] put before its trace. *)
Definition emit {A} (t : trace) (r : outcome A * world * trace)
  : outcome A * world * trace :=
  match r with (o, w, t') => (o, w, (t ++ t')%list) end.

Definition cout (s : string) : M unit := fun w => (Ok tt, w, [Cout s]).
Definition cerr (s : string) : M unit := fun w => (Ok tt, w, [Cerr s]).

(** A range-based [for] over a sequence. *)
Fixpoint for_each {A} (l : list A) (body : A -> M unit) : M unit :=
  match l with
  | [] => ret tt
  | x :: l' => body x ;; for_each l' body
  end.

(** [openarm.get_arm().get_motors()] and
    [openarm.get_gripper().get_motors()]. *)
Definition get_arm_motors : M (list Motor) := fun w => (Ok (arm w), w, []).
Definition get_gripper_motors : M (list Motor) := fun w => (Ok (gripper w), w, []).

Definition modes_of (w : world) : list CallbackMode :=
  map callback_mode (all_motors w).

(* ===================================================================== *)
(** * The OpenArm library *)
(* ===================================================================== *)

Section Library.

Variable E : environment.

Definition made_one_more (w : world) : world :=
  {| arm := arm w; gripper := gripper w; calls_made := S (calls_made w) |}.

(** A library call that can fail: it is recorded, then either throws, as
    the environment decides, or takes effect. *)
Definition fallible (c : call) (effect : world -> world) : M unit :=
  fun w =>
    match fault E (calls_made w) with
    | Some what => (Throw what, made_one_more w, [Call c (modes_of w)])
    | None => (Ok tt, made_one_more (effect w), [Call c (modes_of w)])
    end.

(** Modelled from the spec: the constructor of [OpenArm] (6, [open]); it
    opens the bus channel on an interface, in flexible-payload mode or
    not. *)
Definition OpenArm_ctor (can_interface : string) (can_fd : bool) : M unit :=
  fallible (COpenArm can_interface can_fd) (fun w => w).

(** Modelled from the spec: the address check of [initialize_group]
    (4.1); outbound and inbound addresses are unique over all groups. *)
Definition addresses_unique (motors : list Motor) : bool :=
  bool_decide (NoDup (map send_can_id motors))
  && bool_decide (NoDup (map recv_can_id motors)).

(** Modelled from the spec: the motors of a group, made from its ordered
    tables of classes and address pairs (4.1, [initialize_group]). *)
Fixpoint make_motors (types : list MotorType) (sends recvs : list Z)
  : list Motor :=
  match types, sends, recvs with
  | t :: types', s :: sends', r :: recvs' =>
      new_motor t s r :: make_motors types' sends' recvs'
  | _, _, _ => []
  end.

(** Modelled from the spec: [OpenArm::init_arm_motors] (4.1,
    [initialize_group]).  The motors are created in the order given, each
    with its address pair; an address that collides with a registered one
    is a [ConfigurationError]. *)
Definition init_arm_motors (types : list MotorType) (sends recvs : list Z)
  : M unit :=
  fun w =>
    let motors := make_motors types sends recvs in
    if addresses_unique (motors ++ gripper w)
    then fallible (CInitArmMotors types sends recvs)
           (fun w => {| arm := motors; gripper := gripper w;
                        calls_made := calls_made w |}) w
    else (Throw "ConfigurationError", w,
          [Call (CInitArmMotors types sends recvs) (modes_of w)]).

(** Modelled from the spec: [OpenArm::init_gripper_motor], the
    [initialize_group] of 4.1 for the group of one motor. *)
Definition init_gripper_motor (t : MotorType) (send recv : Z) : M unit :=
  fun w =>
    let motors := [new_motor t send recv] in
    if addresses_unique (arm w ++ motors)
    then fallible (CInitGripperMotor t send recv)
           (fun w => {| arm := arm w; gripper := motors;
                        calls_made := calls_made w |}) w
    else (Throw "ConfigurationError", w,
          [Call (CInitGripperMotor t send recv) (modes_of w)]).

(** Modelled from the spec: [OpenArm::set_callback_mode_all] (4.2,
    [set_mode] on all motors); a pure state mutation on every motor of the
    registry, no I/O, always succeeds. *)
Definition set_callback_mode_all (mode : CallbackMode) : M unit :=
  fun w =>
    (Ok tt,
     {| arm := map (with_callback_mode mode) (arm w);
        gripper := map (with_callback_mode mode) (gripper w);
        calls_made := calls_made w |},
     [Call (CSetCallbackModeAll mode) (modes_of w)]).

(** Modelled from the spec: [OpenArm::query_param_all] (4.3, Query-All
    step 2).  The requests are broadcast, fire and forget; nothing is
    recorded until replies are collected. *)
Definition query_param_all (rid : Z) : M unit :=
  fallible (CQueryParamAll rid) (fun w => w).

(** Modelled from the spec: [OpenArm::write_param_all] (4.3, Write-All);
    any value is transmitted, none is validated. *)
Definition write_param_all (rid : Z) (value : Q) : M unit :=
  fallible (CWriteParamAll rid value) (fun w => w).

(** Modelled from the spec: [OpenArm::recv_all] (4.3, steps 3 and 4); the
    frames that arrive within the deadline are delivered to the motors
    they come from. *)
Definition recv_all (timeout_ms : Z) : M unit :=
  fallible (CRecvAll timeout_ms)
    (fun w =>
       let frames := inbound E (calls_made w) in
       {| arm := deliver_all frames (arm w);
          gripper := deliver_all frames (gripper w);
          calls_made := calls_made w |}).

(** Modelled from the spec: [OpenArm::disable_all] (4.4), a broadcast of
    the disable command. *)
Definition disable_all : M unit :=
  fallible CDisableAll (fun w => w).

End Library.

(* ===================================================================== *)
(** * What the two programs share, line for line *)
(* ===================================================================== *)

(** The arm tables ([query_control_mode.cpp] lines 66-76,
    [set_control_mode.cpp] lines 67-77). *)
Definition motor_types : list MotorType :=
  [DM8009; DM8009; DM4340; DM4340; DM4310; DM4310; DM4310].
Definition send_can_ids : list Z := [0x01; 0x02; 0x03; 0x04; 0x05; 0x06; 0x07].
Definition recv_can_ids : list Z := [0x11; 0x12; 0x13; 0x14; 0x15; 0x16; 0x17].

Section Programs.

Variable K : dm_motor_constants.
Variable E : environment.

(** One line of the listing: [to_string(i) << ":" << name << '\n']. *)
Definition mode_line (i : Z) : string :=
  to_string i ++ ":" ++ GetMotorControlModeString K i ++ nl.

(** The listing of the modes (lines 53-57 and 54-58):
<<
  std::cout << "Available modes:\n";
  for(size_t i {static_cast<size_t>(MotorControlMode::minMode) + 1};
      i < static_cast<size_t>(MotorControlMode::maxMode); ++i)
  { std::cout << std::to_string(i) << ":" << GetMotorControlModeString(...) << '\n'; }
>> *)
Definition print_available_modes : M unit :=
  cout ("Available modes:" ++ nl) ;;
  for_each (size_t_range (size_t (size_t (minMode K) + 1)) (maxMode K))
    (fun i => cout (mode_line i)).

(** One line of the report of a motor. *)
Definition motor_line (group : string) (m : Motor) (control_mode_code : Z)
  : string :=
  group ++ to_string (send_can_id m) ++ " Motor Control Mode: "
  ++ to_string control_mode_code ++ " - "
  ++ GetMotorControlModeString K control_mode_code ++ nl.

Definition error_line (what : string) : string := "Error: " ++ what ++ nl.

End Programs.

(* ===================================================================== *)
(** * [src/apps/query_control_mode.cpp] *)
(* ===================================================================== *)

Module QueryControlMode.
Section Main.

Variable K : dm_motor_constants.
Variable E : environment.

(** Lines 96 and 105:
    [static_cast<uint8_t>(std::round(motor.get_param(...)))]. *)
Definition control_mode_code (stored : Q) : Z :=
  double_to_uint8 E (inject_Z (std_round stored)).

Definition main (argv : list string) : M Z :=
  if bad_argc argv then
    cerr (usage argv) ;;
    ret 1
  else
    let can_interface := arg argv 1 in
    let can_fd := parse_can_fd argv in
    try_catch
      (cout ("=== Query Control Mode ===" ++ nl) ;;
       cout ("Query robot motor control mode" ++ nl) ;;
       print_available_modes K ;;
       cout ("Initializing OpenArm CAN..." ++ nl) ;;
       cout ("Interface: " ++ can_interface ++ nl) ;;
       cout ("Flexible Data Mode: " ++ (if can_fd then "true" else "false") ++ nl) ;;
       OpenArm_ctor E can_interface can_fd ;;
       init_arm_motors E motor_types send_can_ids recv_can_ids ;;
       cout ("Initializing gripper..." ++ nl) ;;
       init_gripper_motor E DM4310 0x08 0x18 ;;
       let param_to_query := CTRL_MODE K in
       set_callback_mode_all PARAM ;;
       query_param_all E param_to_query ;;
       recv_all E 2000 ;;
       motors <- get_arm_motors ;;
       for_each motors (fun motor =>
         cout (motor_line K "Arm Motor: " motor
                 (control_mode_code (get_param E motor param_to_query)))) ;;
       motors <- get_gripper_motors ;;
       for_each motors (fun motor =>
         cout (motor_line K "Gripper Motor: " motor
                 (control_mode_code (get_param E motor param_to_query)))) ;;
       set_callback_mode_all STATE ;;
       disable_all E ;;
       recv_all E 1000 ;;
       ret 0)
      (fun what =>
         cerr (error_line what) ;;
         ret (-1)).

(** The calls that can throw, in the order a run that meets no fault
    makes them. *)
Definition plan (argv : list string) : list call :=
  [COpenArm (arg argv 1) (parse_can_fd argv);
   CInitArmMotors motor_types send_can_ids recv_can_ids;
   CInitGripperMotor DM4310 0x08 0x18;
   CQueryParamAll (CTRL_MODE K);
   CRecvAll 2000;
   CDisableAll;
   CRecvAll 1000].

End Main.
End QueryControlMode.

(* ===================================================================== *)
(** * [src/apps/set_control_mode.cpp] *)
(* ===================================================================== *)

Module SetControlMode.
Section Main.

Variable K : dm_motor_constants.
Variable E : environment.

(** Lines 97 and 106: [static_cast<uint8_t>(motor.get_param(...))]. *)
Definition control_mode_code (stored : Q) : Z :=
  double_to_uint8 E stored.

(** The lambda of lines 89-112. *)
Definition print_control_mode (target_param : Z) : M unit :=
  set_callback_mode_all PARAM ;;
  query_param_all E target_param ;;
  recv_all E 2000 ;;
  motors <- get_arm_motors ;;
  for_each motors (fun motor =>
    cout (motor_line K "Arm Motor: " motor
            (control_mode_code (get_param E motor target_param)))) ;;
  motors <- get_gripper_motors ;;
  for_each motors (fun motor =>
    cout (motor_line K "Gripper Motor: " motor
            (control_mode_code (get_param E motor target_param)))).

(** Line 125. *)
Definition target_control_mode_valid
  (min_mode_value max_mode_value target_control_mode : Z) : bool :=
  (min_mode_value <? target_control_mode)
  && (target_control_mode <? max_mode_value).

(** Line 123: [std::cin >> target_control_mode]. *)
Definition read_target_control_mode : M Z :=
  fun w => (Ok (cin_int32 (cin_entry E)), w, []).

Definition main (argv : list string) : M Z :=
  if bad_argc argv then
    cerr (usage argv) ;;
    ret 1
  else
    let can_interface := arg argv 1 in
    let can_fd := parse_can_fd argv in
    try_catch
      (cout ("=== Query Control Mode ===" ++ nl) ;;
       cout ("Query robot motor control mode" ++ nl) ;;
       print_available_modes K ;;
       cout ("Initializing OpenArm CAN..." ++ nl) ;;
       cout ("Interface: " ++ can_interface ++ nl) ;;
       cout ("Flexible Data Mode: " ++ (if can_fd then "true" else "false") ++ nl) ;;
       OpenArm_ctor E can_interface can_fd ;;
       init_arm_motors E motor_types send_can_ids recv_can_ids ;;
       cout ("Initializing gripper..." ++ nl) ;;
       init_gripper_motor E DM4310 0x08 0x18 ;;
       let target_param := CTRL_MODE K in
       cout ("=== Previous control modes === " ++ nl) ;;
       print_control_mode target_param ;;
       let min_mode_value := int32_t (minMode K) in
       let max_mode_value := int32_t (maxMode K) in
       cout ("Target Control Mode (int - " ++ to_string min_mode_value
             ++ " < value < " ++ to_string max_mode_value ++ "): ") ;;
       target_control_mode <- read_target_control_mode ;;
       (if target_control_mode_valid min_mode_value max_mode_value
             target_control_mode
        then
          cout ("Setting control modes to: " ++ to_string target_control_mode
                ++ GetMotorControlModeString K target_control_mode) ;;
          write_param_all E target_param (inject_Z target_control_mode) ;;
          recv_all E 2000
        else
          cout ("Invalid control mode value received: "
                ++ to_string target_control_mode ++ nl)) ;;
       cout ("=== Current control modes === " ++ nl) ;;
       print_control_mode target_param ;;
       cout ("Disabling motors" ++ nl) ;;
       set_callback_mode_all STATE ;;
       disable_all E ;;
       recv_all E 1000 ;;
       ret 0)
      (fun what =>
         cerr (error_line what) ;;
         ret (-1)).

(** The value the operator's entry leaves in [target_control_mode], and
    whether it passes the test of line 125. *)
Definition target : Z := cin_int32 (cin_entry E).
Definition target_valid : bool :=
  target_control_mode_valid (int32_t (minMode K)) (int32_t (maxMode K)) target.

(** The calls that can throw, in the order a run that meets no fault
    makes them. *)
Definition plan (argv : list string) : list call :=
  ([COpenArm (arg argv 1) (parse_can_fd argv);
    CInitArmMotors motor_types send_can_ids recv_can_ids;
    CInitGripperMotor DM4310 0x08 0x18;
    CQueryParamAll (CTRL_MODE K);
    CRecvAll 2000]
   ++ (if target_valid
       then [CWriteParamAll (CTRL_MODE K) (inject_Z target); CRecvAll 2000]
       else [])
   ++ [CQueryParamAll (CTRL_MODE K);
       CRecvAll 2000;
       CDisableAll;
       CRecvAll 1000])%list.

End Main.
End SetControlMode.

(* ===================================================================== *)
(** * Observing a run *)
(* ===================================================================== *)

(** A program is run from the initial state; what is observed is the value
    [main] returns and the trace. *)
Definition exit_status (m : M Z) : outcome Z := fst (fst (m initial_world)).
Definition trace_of {A} (m : M A) : trace := snd (m initial_world).

(** The library calls of a trace, in order, with the callback modes at the
    moment of each call. *)
Fixpoint calls_of (t : trace) : list (call * list CallbackMode) :=
  match t with
  | [] => []
  | Call c modes :: t' => (c, modes) :: calls_of t'
  | _ :: t' => calls_of t'
  end.

Definition issued (t : trace) : list call := map fst (calls_of t).

(** Every library call can throw except [set_callback_mode_all]. *)
Definition is_fallible (c : call) : bool :=
  match c with
  | CSetCallbackModeAll _ => false
  | _ => true
  end.

Definition fallible_calls (t : trace) : list call :=
  List.filter is_fallible (issued t).

Definition is_query (c : call) : bool :=
  match c with
  | CQueryParamAll _ => true
  | _ => false
  end.

Definition query_count (t : trace) : nat :=
  length (List.filter is_query (issued t)).

(** The opening of a run of either program, up to and including the
    construction of the [OpenArm] object: the banner, the listing of the
    modes the loop of lines 53-57 (54-58) visits, and the settings. *)
Definition preamble (K : dm_motor_constants) (argv : list string) : trace :=
  ([Cout ("=== Query Control Mode ===" ++ nl);
    Cout ("Query robot motor control mode" ++ nl);
    Cout ("Available modes:" ++ nl)]
   ++ map (fun i => Cout (mode_line K i))
        (size_t_range (size_t (size_t (minMode K) + 1)) (maxMode K))
   ++ [Cout ("Initializing OpenArm CAN..." ++ nl);
       Cout ("Interface: " ++ arg argv 1 ++ nl);
       Cout ("Flexible Data Mode: "
             ++ (if parse_can_fd argv then "true" else "false") ++ nl);
       Call (COpenArm (arg argv 1) (parse_can_fd argv)) []])%list.

(** "The second query is skipped": the run queries once only. *)
Definition second_query_skipped (t : trace) : Prop := query_count t = 1%nat.

(** The cleanup both programs end with. *)
Definition cleanup : list call :=
  [CSetCallbackModeAll STATE; CDisableAll; CRecvAll 1000].

(** A query sequence: mode switch, requests, collection. *)
Definition query_sequence (rid : Z) : list call :=
  [CSetCallbackModeAll PARAM; CQueryParamAll rid; CRecvAll 2000].

(** The trace ends with call [c] followed at once by the report of
    [what] on the error stream, the line ["Error: "], [what()], line
    feed. *)
Definition ends_with_report (t : trace) (c : call) (what : string) : Prop :=
  exists modes,
    [Call c modes; Cerr ("Error: " ++ what ++ nl)] `suffix_of` t.

(** Every parameter query of a run: the call just before it is
    [set_callback_mode_all(PARAM)], all eight motors are in [PARAM] mode
    when it is made, and the call after it is [recv_all(2000)] unless the
    query itself threw, in which case the run ends with status -1. *)
Definition query_guarded (status : outcome Z)
  (cs : list (call * list CallbackMode)) : Prop :=
  forall pre rid modes post,
    cs = (pre ++ (CQueryParamAll rid, modes) :: post)%list ->
    (exists pre' modes0,
        pre = (pre' ++ [(CSetCallbackModeAll PARAM, modes0)])%list)
    /\ modes = replicate 8 PARAM
    /\ ((post = [] /\ status = Ok (-1))
        \/ exists modes1 post', post = (CRecvAll 2000, modes1) :: post').

(** The same, as a check that walks the calls once, remembering the call
    before the current one. *)
Fixpoint guarded_from (status : outcome Z) (prev : option call)
  (cs : list (call * list CallbackMode)) : Prop :=
  match cs with
  | [] => True
  | (c, modes) :: cs' =>
      match c with
      | CQueryParamAll _ =>
          prev = Some (CSetCallbackModeAll PARAM)
          /\ modes = replicate 8 PARAM
          /\ match cs' with
             | [] => status = Ok (-1)
             | (CRecvAll 2000, _) :: _ => True
             | _ => False
             end
      | _ => True
      end
      /\ guarded_from status (Some c) cs'
  end.

(** The environment has no fault among the first [n] fallible calls. *)
Definition no_fault_below (E : environment) (n : nat) : Prop :=
  forall k, (k < n)%nat -> fault E k = None.

(** The first fault of the environment is at call [k]. *)
Definition first_fault (E : environment) (k : nat) (what : string) : Prop :=
  no_fault_below E k /\ fault E k = Some what.

(** ** Further observations of a run *)

(** The lines written on the error stream, in order. *)
Fixpoint cerr_lines (t : trace) : list string :=
  match t with
  | [] => []
  | Cerr s :: t' => s :: cerr_lines t'
  | _ :: t' => cerr_lines t'
  end.

Definition is_write (c : call) : bool :=
  match c with
  | CWriteParamAll _ _ => true
  | _ => false
  end.

Definition write_count (t : trace) : nat :=
  length (List.filter is_write (issued t)).

(** The two calls of the cleanup that go to the bus. *)
Definition is_cleanup_io (c : call) : bool :=
  match c with
  | CDisableAll => true
  | CRecvAll 1000 => true
  | _ => false
  end.

(** A call of the cleanup is made with all eight motors in [STATE]
    mode. *)
Definition cleanup_in_state_mode (cm : call * list CallbackMode) : Prop :=
  is_cleanup_io (fst cm) = true -> snd cm = replicate 8 STATE.




(** ** Constants and environments to run the programs on *)

(** A table of four modes between the sentinels 0 and 5. *)
Definition sample_mode_name (code : Z) : string :=
  match code with
  | 1 => "MIT"
  | 2 => "POS_VEL"
  | 3 => "VEL"
  | 4 => "POS_FORCE"
  | _ => "UNKNOWN"
  end.

Definition sample_constants : dm_motor_constants :=
  {| minMode := 0; maxMode := 5;
     GetMotorControlModeString := sample_mode_name; CTRL_MODE := 10 |}.

(** The command line used in the worked examples. *)
Definition sample_argv : list string := ["set_control_mode"; "can0"].

(** All eight motors answer a collection with the same value. *)
Definition all_reply (rid : Z) (v : Q) : list frame :=
  map (fun a => {| source_addr := a; frame_rid := rid; frame_value := v |})
      (recv_can_ids ++ [0x18])%list.

(** No call fails, and every motor reports the value 1.6. *)
Definition quiet_environment (entry : option Z) : environment :=
  {| fault := fun _ => None;
     inbound := fun _ => all_reply 10 (8 # 5);
     cin_entry := entry;
     get_param_absent := 0;
     uint8_undefined := fun _ => 0 |}.

(** The same, with the [n]-th fallible call throwing. *)
Definition faulty_environment (entry : option Z) (n : nat) (what : string)
  : environment :=
  {| fault := fun k => if Nat.eqb k n then Some what else None;
     inbound := fun _ => all_reply 10 (8 # 5);
     cin_entry := entry;
     get_param_absent := 0;
     uint8_undefined := fun _ => 0 |}.

(** What an x86-64 build yields for the conversions the language leaves
    undefined: the compilers emit a 32-bit [cvttsd2si] and keep its low
    byte, and the instruction returns [0x80000000] for a value outside
    [int32_t]. *)
Definition x86_uint8 (x : Q) : Z :=
  let t := Qtrunc x in
  if (INT32_MIN <=? t) && (t <=? INT32_MAX) then t mod 256 else 0.

Definition x86_environment : environment :=
  {| fault := fun _ => None;
     inbound := fun _ => [];
     cin_entry := None;
     get_param_absent := 0;
     uint8_undefined := x86_uint8 |}.

(* ===================================================================== *)
(** * Running a computation step by step *)
(* ===================================================================== *)

Lemma run_ret {A B} (a : A) (k : A -> M B) w :
  (x <- ret a ;; k x) w = emit [] (k a w).
Proof. unfold bind, ret, emit. destruct (k a w) as [[o w'] t]. reflexivity. Qed.

Lemma run_cout {B} (s : string) (k : unit -> M B) w :
  (x <- cout s ;; k x) w = emit [Cout s] (k tt w).
Proof. reflexivity. Qed.

Lemma run_cerr {B} (s : string) (k : unit -> M B) w :
  (x <- cerr s ;; k x) w = emit [Cerr s] (k tt w).
Proof. reflexivity. Qed.

Lemma run_assoc {A B C} (m : M A) (k1 : A -> M B) (k2 : B -> M C) w :
  (y <- (x <- m ;; k1 x) ;; k2 y) w = (x <- m ;; y <- k1 x ;; k2 y) w.
Proof.
  unfold bind. destruct (m w) as [[[a|what] w1] t1]; [|reflexivity].
  destruct (k1 a w1) as [[[b|what] w2] t2]; [|reflexivity].
  destruct (k2 b w2) as [[o w3] t3]. rewrite app_assoc. reflexivity.
Qed.

Lemma for_each_cout {A} (f : A -> string) (l : list A) w :
  for_each l (fun x => cout (f x)) w = (Ok tt, w, map (fun x => Cout (f x)) l).
Proof.
  induction l as [|x l IH]; [reflexivity|].
  simpl. unfold bind at 1. unfold cout at 1. rewrite IH. reflexivity.
Qed.

Lemma run_for_each_cout {A B} (f : A -> string) (l : list A)
  (k : unit -> M B) w :
  (x <- for_each l (fun x => cout (f x)) ;; k x) w
  = emit (map (fun x => Cout (f x)) l) (k tt w).
Proof. unfold bind at 1. rewrite for_each_cout. reflexivity. Qed.

Lemma run_get_arm_motors {B} (k : list Motor -> M B) w :
  (x <- get_arm_motors ;; k x) w = emit [] (k (arm w) w).
Proof. unfold bind, get_arm_motors, emit. destruct (k (arm w) w) as [[o w'] t]. reflexivity. Qed.

Lemma run_get_gripper_motors {B} (k : list Motor -> M B) w :
  (x <- get_gripper_motors ;; k x) w = emit [] (k (gripper w) w).
Proof.
  unfold bind, get_gripper_motors, emit.
  destruct (k (gripper w) w) as [[o w'] t]. reflexivity.
Qed.

Lemma run_set_callback_mode_all {B} mode (k : unit -> M B) w :
  (x <- set_callback_mode_all mode ;; k x) w
  = emit [Call (CSetCallbackModeAll mode) (modes_of w)]
      (k tt {| arm := map (with_callback_mode mode) (arm w);
               gripper := map (with_callback_mode mode) (gripper w);
               calls_made := calls_made w |}).
Proof. reflexivity. Qed.

Lemma run_fallible {B} E c effect (k : unit -> M B) w :
  (x <- fallible E c effect ;; k x) w
  = match fault E (calls_made w) with
    | Some what => (Throw what, made_one_more w, [Call c (modes_of w)])
    | None => emit [Call c (modes_of w)] (k tt (made_one_more (effect w)))
    end.
Proof. unfold bind, fallible. destruct (fault E (calls_made w)); reflexivity. Qed.

Lemma run_init_arm_motors {B} E types sends recvs (k : unit -> M B) w :
  addresses_unique (make_motors types sends recvs ++ gripper w) = true ->
  (x <- init_arm_motors E types sends recvs ;; k x) w
  = (x <- fallible E (CInitArmMotors types sends recvs)
            (fun w => {| arm := make_motors types sends recvs;
                         gripper := gripper w;
                         calls_made := calls_made w |}) ;; k x) w.
Proof. intros H. unfold bind at 1, init_arm_motors. rewrite H. reflexivity. Qed.

Lemma run_init_gripper_motor {B} E t send recv (k : unit -> M B) w :
  addresses_unique (arm w ++ [new_motor t send recv]) = true ->
  (x <- init_gripper_motor E t send recv ;; k x) w
  = (x <- fallible E (CInitGripperMotor t send recv)
            (fun w => {| arm := arm w;
                         gripper := [new_motor t send recv];
                         calls_made := calls_made w |}) ;; k x) w.
Proof. intros H. unfold bind at 1, init_gripper_motor. rewrite H. reflexivity. Qed.

Lemma run_read_target_control_mode {B} E (k : Z -> M B) w :
  (x <- SetControlMode.read_target_control_mode E ;; k x) w
  = emit [] (k (cin_int32 (cin_entry E)) w).
Proof.
  unfold bind, SetControlMode.read_target_control_mode, emit.
  destruct (k (cin_int32 (cin_entry E)) w) as [[o w'] t]. reflexivity.
Qed.

(* ===================================================================== *)
(** * Facts about text, numbers and lists *)
(* ===================================================================== *)

(** A line ends with the one character of code 10. *)
Lemma nl_line_feed : nl = String "010"%char EmptyString.
Proof. reflexivity. Qed.

(** The usage line names the program and the two arguments; with no
    program name only its first word is written. *)
Lemma usage_text (prog : string) (rest : list string) :
  usage (prog :: rest)
  = "Usage: " ++ prog ++
    "  <can interface> <optional fd mode: true/false. default: false>" ++ nl.
Proof. unfold usage. cbn. reflexivity. Qed.

Lemma usage_without_name : usage [] = "Usage: ".
Proof. reflexivity. Qed.

Lemma error_line_text (what : string) :
  error_line what = "Error: " ++ what ++ nl.
Proof. reflexivity. Qed.

Lemma to_int_nonnil (z : Z) :
  Z.to_int z <> Decimal.Pos Decimal.Nil /\ Z.to_int z <> Decimal.Neg Decimal.Nil.
Proof.
  destruct z as [|p|p]; cbn; split; try discriminate;
    intros [= H]; exact (DecimalPos.Unsigned.to_uint_nonnil p H).
Qed.

(** Two integers with the same decimal rendering are equal. *)
Lemma to_string_inj (a b : Z) : to_string a = to_string b -> a = b.
Proof.
  unfold to_string. intros H.
  apply DecimalZ.to_int_inj.
  destruct (to_int_nonnil a) as [Ha1 Ha2], (to_int_nonnil b) as [Hb1 Hb2].
  pose proof (NilZero.isi _ Ha1 Ha2) as Ia.
  pose proof (NilZero.isi _ Hb1 Hb2) as Ib.
  rewrite H in Ia. congruence.
Qed.

Lemma Qfloor_unique (x : Q) (n : Z) :
  (inject_Z n <= x)%Q -> (x < inject_Z (n + 1))%Q -> Qfloor x = n.
Proof.
  intros Hlo Hhi.
  pose proof (Qfloor_le x) as H1. pose proof (Qlt_floor x) as H2.
  assert (Hn : (inject_Z n < inject_Z (Qfloor x + 1))%Q)
    by (eapply Qle_lt_trans; eauto).
  assert (Hm : (inject_Z (Qfloor x) < inject_Z (n + 1))%Q)
    by (eapply Qle_lt_trans; eauto).
  rewrite <- Zlt_Qlt in Hn, Hm. lia.
Qed.

(** When the fraction is a half or more, rounding moves one step further
    from zero than truncation. *)
Lemma trunc_round (x : Q) : (1 # 2 <= fraction x)%Q ->
  std_round x = Qtrunc x + (if Qle_bool 0 x then 1 else -1).
Proof.
  unfold fraction, std_round, Qtrunc. intros Hf.
  destruct (Qle_bool 0 x) eqn:Hs.
  - apply Qle_bool_iff in Hs.
    assert (Habs : Qabs x == x) by (apply Qabs_pos; exact Hs).
    rewrite (Qfloor_comp _ _ Habs), Habs in Hf.
    pose proof (Qfloor_le x) as H1. pose proof (Qlt_floor x) as H2.
    apply Qfloor_unique.
    + rewrite inject_Z_plus. change (inject_Z 1) with 1%Q. lra.
    + rewrite !inject_Z_plus in *. change (inject_Z 1) with 1%Q in *. lra.
  - assert (Hneg : (x < 0)%Q).
    { apply Qnot_le_lt. intros H. apply Qle_bool_iff in H. congruence. }
    assert (Habs : Qabs x == - x) by (apply Qabs_neg; lra).
    rewrite (Qfloor_comp _ _ Habs), Habs in Hf.
    unfold Qceiling.
    pose proof (Qfloor_le (- x)) as H1. pose proof (Qlt_floor (- x)) as H2.
    rewrite !inject_Z_plus in *. change (inject_Z 1) with 1%Q in *.
    assert (Qfloor (- (x - (1 # 2))) = Qfloor (- x) + 1); [|lia].
    apply Qfloor_unique; rewrite !inject_Z_plus;
      change (inject_Z 1) with 1%Q; lra.
Qed.

Lemma size_t_small (z : Z) : 0 <= z < 2 ^ 64 -> size_t z = z.
Proof. intros H. unfold size_t. apply Z.mod_small. exact H. Qed.

Lemma int32_t_small (z : Z) : INT32_MIN <= z <= INT32_MAX -> int32_t z = z.
Proof.
  unfold int32_t, INT32_MIN, INT32_MAX. intros H.
  rewrite Z.mod_small by lia. lia.
Qed.


Lemma calls_of_app (t1 t2 : trace) :
  calls_of (t1 ++ t2)%list = (calls_of t1 ++ calls_of t2)%list.
Proof.
  induction t1 as [|[s|s|c ms] t1 IH]; cbn; rewrite ?IH; reflexivity.
Qed.

Lemma calls_of_couts {A} (f : A -> string) (l : list A) :
  calls_of (map (fun x => Cout (f x)) l) = [].
Proof. induction l as [|x l IH]; cbn; [reflexivity | exact IH]. Qed.

Lemma length_deliver_all (frames : list frame) (motors : list Motor) :
  length (deliver_all frames motors) = length motors.
Proof.
  unfold deliver_all. revert motors.
  induction frames as [|f frames IH]; intros motors; cbn; [reflexivity|].
  rewrite IH. apply length_map.
Qed.

(** After [set_callback_mode_all mode] every motor is in [mode]. *)
Lemma modes_after_set (mode : CallbackMode) (a g : list Motor) (n : nat) :
  modes_of {| arm := map (with_callback_mode mode) a;
              gripper := map (with_callback_mode mode) g;
              calls_made := n |}
  = replicate (length a + length g) mode.
Proof.
  unfold modes_of, all_motors. cbn [arm gripper].
  rewrite map_app, replicate_add. f_equal.
  - induction a as [|m a IH]; cbn; [reflexivity | f_equal; exact IH].
  - induction g as [|m g IH]; cbn; [reflexivity | f_equal; exact IH].
Qed.

(** Among the first [n] calls either none faults or one is the first. *)
Lemma fault_or_not (E : environment) (n : nat) :
  no_fault_below E n
  \/ exists k what, (k < n)%nat /\ first_fault E k what.
Proof.
  induction n as [|n [IH|(k & what & Hk & Hf)]].
  - left. intros k Hk. lia.
  - destruct (fault E n) as [what|] eqn:Hn.
    + right. exists n, what. split; [lia|]. split; assumption.
    + left. intros k Hk. destruct (decide (k = n)) as [->|]; [exact Hn|].
      apply IH. lia.
  - right. exists k, what. split; [lia | exact Hf].
Qed.

Lemma guarded_from_sound (status : outcome Z) (pre : list (call * list CallbackMode)) :
  forall prev cs rid modes post,
    guarded_from status prev cs ->
    cs = (pre ++ (CQueryParamAll rid, modes) :: post)%list ->
    match pre with
    | [] => prev
    | _ => fst <$> last pre
    end = Some (CSetCallbackModeAll PARAM)
    /\ modes = replicate 8 PARAM
    /\ ((post = [] /\ status = Ok (-1))
        \/ exists modes1 post', post = (CRecvAll 2000, modes1) :: post').
Proof.
  induction pre as [|[c ms] pre IH]; intros prev cs rid modes post Hg ->.
  - cbn in Hg. destruct Hg as [(Hprev & Hmodes & Hnext) _].
    split; [exact Hprev|]. split; [exact Hmodes|].
    destruct post as [|[c1 m1] post]; [left; split; [reflexivity | exact Hnext]|].
    right. destruct c1; try contradiction.
    destruct timeout_ms as [|p|p]; try contradiction.
    do 11 (destruct p as [p|p|]; try contradiction).
    exists m1, post. reflexivity.
  - cbn [app guarded_from] in Hg. destruct Hg as [_ Hg].
    specialize (IH (Some c) _ rid modes post Hg eq_refl).
    destruct pre as [|x pre']; [exact IH|].
    cbn [last] in *. exact IH.
Qed.

Lemma guarded_from_query_guarded (status : outcome Z)
  (cs : list (call * list CallbackMode)) :
  guarded_from status None cs -> query_guarded status cs.
Proof.
  intros Hg pre rid modes post Hcs.
  destruct (guarded_from_sound status pre None cs rid modes post Hg Hcs)
    as (Hprev & Hmodes & Hnext).
  split; [|split; assumption].
  destruct pre as [|x pre]; [discriminate|].
  destruct (last (x :: pre)) as [[c m0]|] eqn:Hlast; [|discriminate].
  cbn in Hprev. injection Hprev as ->.
  apply last_Some in Hlast. destruct Hlast as [pre' ->].
  exists pre', m0. reflexivity.
Qed.

(* ===================================================================== *)
(** * Running the programs *)
(* ===================================================================== *)

(** The run of a program is unfolded in a hypothesis [H : main ... = r],
    one statement at a time, with the equations above. *)
Ltac unfold_calls H :=
  unfold print_available_modes, SetControlMode.print_control_mode in H;
  unfold OpenArm_ctor, query_param_all, write_param_all, recv_all,
    disable_all in H.

Ltac step H :=
  first
    [ rewrite run_assoc in H
    | rewrite run_cout in H
    | rewrite run_cerr in H
    | rewrite run_ret in H
    | rewrite run_read_target_control_mode in H
    | rewrite run_for_each_cout in H
    | rewrite run_get_arm_motors in H
    | rewrite run_get_gripper_motors in H
    | rewrite run_set_callback_mode_all in H
    | rewrite run_init_arm_motors in H by (vm_compute; reflexivity)
    | rewrite run_init_gripper_motor in H by (vm_compute; reflexivity)
    | rewrite run_fallible in H ];
  cbn [calls_made made_one_more initial_world arm gripper] in H.

Ltac settle H :=
  repeat (progress (cbv beta iota in H; repeat step H; unfold ret in H;
                    cbn [emit app] in H));
  repeat (progress (rewrite <- ?app_assoc in H; cbn [app] in H)).

(** What is known of the faults is used; what is not is split, in the
    order of the calls. *)
Ltac use_faults H :=
  repeat match goal with
         | F : fault _ _ = _ |- _ => rewrite F in H
         end;
  cbv beta iota in H.

Ltac paths E n H :=
  lazymatch type of H with
  | context [fault E n] =>
      let what := fresh "what" in
      let F := fresh "F" in
      destruct (fault E n) as [what|] eqn:F;
      [ settle H | cbv beta iota in H; paths E (S n) H ]
  | _ => settle H
  end.

Ltac start_query H Hargc :=
  unfold QueryControlMode.main in H; rewrite Hargc in H;
  unfold try_catch in H; unfold_calls H; repeat step H.

Ltac start_set H Hargc :=
  unfold SetControlMode.main in H; rewrite Hargc in H;
  unfold try_catch in H; unfold_calls H; repeat step H.

(** The calls of an unfolded trace. *)
Ltac calls :=
  unfold fallible_calls, query_count, issued;
  repeat first
    [ progress cbn [calls_of app map fst]
    | rewrite calls_of_app
    | rewrite calls_of_couts ].

Ltac suffix_tac :=
  first
    [ reflexivity
    | apply suffix_cons_r; suffix_tac
    | apply suffix_app_r; suffix_tac ].

(** The facts [fault E j = None] for [j] below a known bound. *)
Ltac below Hnone :=
  try pose proof (Hnone 0%nat ltac:(lia));
  try pose proof (Hnone 1%nat ltac:(lia));
  try pose proof (Hnone 2%nat ltac:(lia));
  try pose proof (Hnone 3%nat ltac:(lia));
  try pose proof (Hnone 4%nat ltac:(lia));
  try pose proof (Hnone 5%nat ltac:(lia));
  try pose proof (Hnone 6%nat ltac:(lia));
  try pose proof (Hnone 7%nat ltac:(lia));
  try pose proof (Hnone 8%nat ltac:(lia));
  try pose proof (Hnone 9%nat ltac:(lia));
  try pose proof (Hnone 10%nat ltac:(lia)).

Ltac split_valid K E H :=
  change (SetControlMode.target_control_mode_valid (int32_t (minMode K))
            (int32_t (maxMode K)) (cin_int32 (cin_entry E)))
    with (SetControlMode.target_valid K E) in H;
  change (cin_int32 (cin_entry E)) with (SetControlMode.target E) in H.

Ltac in_tac :=
  first
    [ left; reflexivity
    | right; in_tac
    | apply in_or_app; right; in_tac ].

Section QueryRuns.
Variable K : dm_motor_constants.
Variable E : environment.
Variable argv : list string.
Hypothesis Hargc : bad_argc argv = false.

Lemma query_run_ok :
  no_fault_below E 7 ->
  exit_status (QueryControlMode.main K E argv) = Ok 0
  /\ issued (trace_of (QueryControlMode.main K E argv))
     = ([COpenArm (arg argv 1) (parse_can_fd argv);
         CInitArmMotors motor_types send_can_ids recv_can_ids;
         CInitGripperMotor DM4310 0x08 0x18]
        ++ query_sequence (CTRL_MODE K) ++ cleanup)%list.
Proof.
  intros Hnone. unfold exit_status, trace_of.
  destruct (QueryControlMode.main K E argv initial_world) as [[o w] t] eqn:H.
  cbn [fst snd]. start_query H Hargc. below Hnone. use_faults H. settle H.
  injection H as <- <- <-. split; [reflexivity|]. calls. reflexivity.
Qed.

Lemma query_run_fault (k : nat) (what : string) :
  first_fault E k what -> (k < 7)%nat ->
  exit_status (QueryControlMode.main K E argv) = Ok (-1)
  /\ ends_with_report (trace_of (QueryControlMode.main K E argv))
       (nth k (QueryControlMode.plan K argv) CDisableAll) what
  /\ fallible_calls (trace_of (QueryControlMode.main K E argv))
     = take (S k) (QueryControlMode.plan K argv).
Proof.
  intros [Hnone Hk] Hlt. unfold exit_status, trace_of, ends_with_report.
  destruct (QueryControlMode.main K E argv initial_world) as [[o w] t] eqn:H.
  cbn [fst snd]. start_query H Hargc.
  destruct k as [|[|[|[|[|[|[|k]]]]]]]; [..|lia].
  all: below Hnone; use_faults H; settle H;
    injection H as <- <- <-; split; [reflexivity|]; split;
    [eexists; cbn [nth QueryControlMode.plan]; suffix_tac | calls; reflexivity].
Qed.

Lemma query_run_guarded :
  query_guarded (exit_status (QueryControlMode.main K E argv))
    (calls_of (trace_of (QueryControlMode.main K E argv))).
Proof.
  apply guarded_from_query_guarded. unfold exit_status, trace_of.
  destruct (QueryControlMode.main K E argv initial_world) as [[o w] t] eqn:H.
  cbn [fst snd]. start_query H Hargc. paths E 0%nat H.
  all: injection H as <- <- <-; calls; cbn [guarded_from];
    rewrite ?modes_after_set; repeat split.
Qed.
Lemma query_run_prefix :
  (exit_status (QueryControlMode.main K E argv) = Ok 0
   \/ exit_status (QueryControlMode.main K E argv) = Ok (-1))
  /\ exists rest,
      trace_of (QueryControlMode.main K E argv) = (preamble K argv ++ rest)%list.
Proof.
  unfold exit_status, trace_of, preamble.
  destruct (QueryControlMode.main K E argv initial_world) as [[o w] t] eqn:H.
  cbn [fst snd]. start_query H Hargc. paths E 0%nat H.
  all: injection H as <- <- <-; (split; [auto|]); eexists;
    cbn [app]; rewrite <- ?app_assoc; cbn [app]; reflexivity.
Qed.
End QueryRuns.

Section SetRuns.
Variable K : dm_motor_constants.
Variable E : environment.
Variable argv : list string.
Hypothesis Hargc : bad_argc argv = false.

Lemma set_run_ok :
  no_fault_below E (length (SetControlMode.plan K E argv)) ->
  exit_status (SetControlMode.main K E argv) = Ok 0
  /\ issued (trace_of (SetControlMode.main K E argv))
     = ([COpenArm (arg argv 1) (parse_can_fd argv);
         CInitArmMotors motor_types send_can_ids recv_can_ids;
         CInitGripperMotor DM4310 0x08 0x18]
        ++ query_sequence (CTRL_MODE K)
        ++ (if SetControlMode.target_valid K E
            then [CWriteParamAll (CTRL_MODE K)
                    (inject_Z (SetControlMode.target E));
                  CRecvAll 2000]
            else [])
        ++ query_sequence (CTRL_MODE K) ++ cleanup)%list
  /\ (SetControlMode.target_valid K E = false ->
      In (Cout ("Invalid control mode value received: "
                ++ to_string (SetControlMode.target E) ++ nl))
         (trace_of (SetControlMode.main K E argv))).
Proof.
  intros Hnone. unfold exit_status, trace_of.
  destruct (SetControlMode.main K E argv initial_world) as [[o w] t] eqn:H.
  cbn [fst snd]. start_set H Hargc. split_valid K E H.
  unfold SetControlMode.plan in Hnone.
  destruct (SetControlMode.target_valid K E) eqn:V;
    cbv beta iota in H; repeat step H; cbn [app length] in Hnone;
    below Hnone; use_faults H; settle H; injection H as <- <- <-;
    (split; [reflexivity|]); (split; [calls; reflexivity|]); intros Hv.
  - discriminate.
  - in_tac.
Qed.

Lemma set_run_fault (k : nat) (what : string) :
  first_fault E k what ->
  (k < length (SetControlMode.plan K E argv))%nat ->
  exit_status (SetControlMode.main K E argv) = Ok (-1)
  /\ ends_with_report (trace_of (SetControlMode.main K E argv))
       (nth k (SetControlMode.plan K E argv) CDisableAll) what
  /\ fallible_calls (trace_of (SetControlMode.main K E argv))
     = take (S k) (SetControlMode.plan K E argv).
Proof.
  intros [Hnone Hk] Hlt. unfold exit_status, trace_of, ends_with_report.
  destruct (SetControlMode.main K E argv initial_world) as [[o w] t] eqn:H.
  cbn [fst snd]. start_set H Hargc. split_valid K E H.
  unfold SetControlMode.plan in *.
  destruct (SetControlMode.target_valid K E) eqn:V;
    cbv beta iota in H; repeat step H; cbn [app length] in Hlt |- *.
  - destruct k as [|[|[|[|[|[|[|[|[|[|[|k]]]]]]]]]]]; [..|lia].
    all: below Hnone; use_faults H; settle H;
      injection H as <- <- <-; split; [reflexivity|]; split;
      [eexists; cbn [nth]; suffix_tac | calls; reflexivity].
  - destruct k as [|[|[|[|[|[|[|[|[|k]]]]]]]]]; [..|lia].
    all: below Hnone; use_faults H; settle H;
      injection H as <- <- <-; split; [reflexivity|]; split;
      [eexists; cbn [nth]; suffix_tac | calls; reflexivity].
Qed.

Lemma set_run_guarded :
  query_guarded (exit_status (SetControlMode.main K E argv))
    (calls_of (trace_of (SetControlMode.main K E argv))).
Proof.
  apply guarded_from_query_guarded. unfold exit_status, trace_of.
  destruct (SetControlMode.main K E argv initial_world) as [[o w] t] eqn:H.
  cbn [fst snd]. start_set H Hargc. split_valid K E H.
  destruct (SetControlMode.target_valid K E) eqn:V;
    cbv beta iota in H; repeat step H; paths E 0%nat H.
  all: injection H as <- <- <-; calls; cbn [guarded_from];
    rewrite ?modes_after_set, ?length_deliver_all; repeat split.
Qed.

Lemma set_write_needs_valid (rid : Z) (x : Q) :
  In (CWriteParamAll rid x) (issued (trace_of (SetControlMode.main K E argv))) ->
  SetControlMode.target_valid K E = true
  /\ rid = CTRL_MODE K /\ x = inject_Z (SetControlMode.target E).
Proof.
  unfold trace_of.
  destruct (SetControlMode.main K E argv initial_world) as [[o w] t] eqn:H.
  cbn [fst snd]. start_set H Hargc. split_valid K E H.
  destruct (SetControlMode.target_valid K E) eqn:V;
    cbv beta iota in H; repeat step H; paths E 0%nat H.
  all: injection H as <- <- <-; calls; cbn [In]; intros Hin;
    repeat (destruct Hin as [Hin|Hin]; [try discriminate Hin|]);
    try contradiction; injection Hin as <- <-; auto.
Qed.

Lemma set_write_when_valid :
  no_fault_below E 5 ->
  SetControlMode.target_valid K E = true ->
  In (CWriteParamAll (CTRL_MODE K) (inject_Z (SetControlMode.target E)))
     (issued (trace_of (SetControlMode.main K E argv))).
Proof.
  intros Hnone V. unfold trace_of.
  destruct (SetControlMode.main K E argv initial_world) as [[o w] t] eqn:H.
  cbn [fst snd]. start_set H Hargc. split_valid K E H. rewrite V in H.
  cbv beta iota in H; repeat step H. below Hnone. use_faults H.
  paths E 5%nat H.
  all: injection H as <- <- <-; calls; cbn [In]; auto 10.
Qed.

Lemma set_run_prefix :
  (exit_status (SetControlMode.main K E argv) = Ok 0
   \/ exit_status (SetControlMode.main K E argv) = Ok (-1))
  /\ exists rest,
      trace_of (SetControlMode.main K E argv) = (preamble K argv ++ rest)%list.
Proof.
  unfold exit_status, trace_of, preamble.
  destruct (SetControlMode.main K E argv initial_world) as [[o w] t] eqn:H.
  cbn [fst snd]. start_set H Hargc. split_valid K E H.
  destruct (SetControlMode.target_valid K E) eqn:V;
    cbv beta iota in H; repeat step H; paths E 0%nat H.
  all: injection H as <- <- <-; (split; [auto|]); eexists;
    cbn [app]; rewrite <- ?app_assoc; cbn [app]; reflexivity.
Qed.
End SetRuns.


Lemma query_bad_argc K E argv :
  bad_argc argv = true ->
  QueryControlMode.main K E argv initial_world
  = (Ok 1, initial_world, [Cerr (usage argv)]).
Proof. intros H. unfold QueryControlMode.main. rewrite H. reflexivity. Qed.

Lemma set_bad_argc K E argv :
  bad_argc argv = true ->
  SetControlMode.main K E argv initial_world
  = (Ok 1, initial_world, [Cerr (usage argv)]).
Proof. intros H. unfold SetControlMode.main. rewrite H. reflexivity. Qed.

(** The test of line 125 accepts exactly the integers strictly between the
    sentinels, when these are [int32_t] values. *)
Lemma target_valid_iff K E (v : Z) :
  cin_entry E = Some v ->
  INT32_MIN <= minMode K <= INT32_MAX ->
  INT32_MIN <= maxMode K <= INT32_MAX ->
  (SetControlMode.target_valid K E = true <-> minMode K < v < maxMode K)
  /\ (minMode K < v < maxMode K -> SetControlMode.target E = v).
Proof.
  intros Hv Hmin Hmax.
  unfold SetControlMode.target_valid, SetControlMode.target,
    SetControlMode.target_control_mode_valid.
  rewrite Hv, !int32_t_small by assumption. cbn [cin_int32].
  rewrite andb_true_iff, !Z.ltb_lt. unfold INT32_MIN, INT32_MAX in *. lia.
Qed.


(* ===================================================================== *)
(** * The claims *)
(* ===================================================================== *)

(** ** C1: the write is issued exactly for values strictly between the
    sentinels *)

(** C1.  In the set-control-mode session, with the sentinels [minMode] and
    [maxMode] being [int32_t] values and the operator entering the integer
    [v]: a [write_param_all] is issued only if [minMode < v < maxMode], and
    then it writes [v] to the control-mode register; it is issued whenever
    [minMode < v < maxMode] and no call before the prompt failed.  The test
    rejects [v = minMode] and [v = maxMode], and accepts [minMode + 1] and
    [maxMode - 1] (when there is a mode between the sentinels at all). *)
Theorem set_write_iff_strictly_between
  (K : dm_motor_constants) (E : environment) (argv : list string) (v : Z) :
  bad_argc argv = false ->
  cin_entry E = Some v ->
  INT32_MIN <= minMode K <= INT32_MAX ->
  INT32_MIN <= maxMode K <= INT32_MAX ->
  let t := trace_of (SetControlMode.main K E argv) in
  let valid := SetControlMode.target_control_mode_valid
                 (int32_t (minMode K)) (int32_t (maxMode K)) in
  (forall rid x, In (CWriteParamAll rid x) (issued t) ->
     minMode K < v < maxMode K /\ rid = CTRL_MODE K /\ x = inject_Z v)
  /\ (no_fault_below E 5 -> minMode K < v < maxMode K ->
      In (CWriteParamAll (CTRL_MODE K) (inject_Z v)) (issued t))
  /\ valid (cin_int32 (Some (minMode K))) = false
  /\ valid (cin_int32 (Some (maxMode K))) = false
  /\ (minMode K + 1 < maxMode K ->
      valid (cin_int32 (Some (minMode K + 1))) = true
      /\ valid (cin_int32 (Some (maxMode K - 1))) = true).
Proof.
  intros Hargc Hv Hmin Hmax t valid.
  destruct (target_valid_iff K E v Hv Hmin Hmax) as [Hiff Htarget].
  split; [|split].
  - intros rid x Hin.
    destruct (set_write_needs_valid K E argv Hargc rid x Hin) as (V & -> & ->).
    apply Hiff in V. rewrite (Htarget V). auto.
  - intros Hnone Hbetween.
    rewrite <- (Htarget Hbetween).
    apply set_write_when_valid; [assumption .. | apply Hiff; assumption].
  - subst valid. unfold SetControlMode.target_control_mode_valid, cin_int32.
    rewrite !int32_t_small by assumption.
    unfold INT32_MIN, INT32_MAX in *.
    repeat split; try intros Hne;
      rewrite ?andb_false_iff, ?andb_true_iff, ?Z.ltb_lt, ?Z.ltb_ge; lia.
Qed.

Lemma set_write_iff_strictly_between_witness :
  let E := quiet_environment (Some 2) in
  let t := trace_of (SetControlMode.main sample_constants E sample_argv) in
  In (CWriteParamAll 10 (inject_Z 2)) (issued t)
  /\ SetControlMode.target_control_mode_valid 0 5 0 = false
  /\ SetControlMode.target_control_mode_valid 0 5 5 = false
  /\ SetControlMode.target_control_mode_valid 0 5 1 = true
  /\ SetControlMode.target_control_mode_valid 0 5 4 = true.
Proof.
  intros E t.
  destruct (set_write_iff_strictly_between sample_constants E sample_argv 2)
    as (_ & Hissued & Hlo & Hhi & Hin);
    [reflexivity | reflexivity
    | unfold INT32_MIN, INT32_MAX; cbn; lia
    | unfold INT32_MIN, INT32_MAX; cbn; lia |].
  split; [apply Hissued; [intros k _; reflexivity | cbn; lia]|].
  split; [exact Hlo|]. split; [exact Hhi|].
  apply Hin. cbn. lia.
Defined.

(** ** C2: what the session does with an invalid and with a valid entry *)

(** C2, as stated, fails: with the sentinels 0 and 5 and the operator
    entering 0, the entry is invalid and the session still issues its
    second query. *)
Lemma invalid_entry_still_queries_again :
  let E := quiet_environment (Some 0) in
  let t := trace_of (SetControlMode.main sample_constants E sample_argv) in
  SetControlMode.target_valid sample_constants E = false
  /\ ~ second_query_skipped t.
Proof.
  split; [reflexivity|]. unfold second_query_skipped. vm_compute. discriminate.
Qed.

(** C2, amended.  In a run of the set-control-mode session that meets no
    fault: if the entered value is invalid, the session skips the write and
    its collection, reports the rejected value, and still performs the
    second query sequence before the cleanup; if it is valid, the session
    performs the write and its collection, then the second query
    sequence. *)
Theorem set_session_sequence
  (K : dm_motor_constants) (E : environment) (argv : list string) :
  bad_argc argv = false ->
  no_fault_below E (length (SetControlMode.plan K E argv)) ->
  let t := trace_of (SetControlMode.main K E argv) in
  let rid := CTRL_MODE K in
  let target := SetControlMode.target E in
  let opening :=
    [COpenArm (arg argv 1) (parse_can_fd argv);
     CInitArmMotors motor_types send_can_ids recv_can_ids;
     CInitGripperMotor DM4310 0x08 0x18] in
  (SetControlMode.target_valid K E = false ->
     issued t = (opening ++ query_sequence rid
                 ++ query_sequence rid ++ cleanup)%list
     /\ In (Cout ("Invalid control mode value received: "
                  ++ to_string target ++ nl)) t
     /\ query_count t = 2%nat)
  /\ (SetControlMode.target_valid K E = true ->
      issued t = (opening ++ query_sequence rid
                  ++ [CWriteParamAll rid (inject_Z target); CRecvAll 2000]
                  ++ query_sequence rid ++ cleanup)%list).
Proof.
  intros Hargc Hnone. cbv zeta.
  destruct (set_run_ok K E argv Hargc Hnone) as (_ & Hissued & Hreport).
  split; intros V; rewrite V in Hissued.
  - split; [exact Hissued|]. split; [exact (Hreport V)|].
    unfold query_count. rewrite Hissued. reflexivity.
  - exact Hissued.
Qed.

Lemma set_session_sequence_witness :
  let E := quiet_environment (Some 0) in
  let t := trace_of (SetControlMode.main sample_constants E sample_argv) in
  In (Cout ("Invalid control mode value received: " ++ to_string 0 ++ nl)) t
  /\ query_count t = 2%nat.
Proof.
  intros E t.
  destruct (set_session_sequence sample_constants E sample_argv)
    as [Hinvalid _]; [reflexivity | intros k _; reflexivity |].
  destruct Hinvalid as (_ & Hreport & Hcount); [reflexivity|].
  split; [exact Hreport | exact Hcount].
Defined.

(** ** C3: callback mode [PARAM] before every query *)

(** C3.  In every run of either program, whatever the command line, the
    operator's entry, the frames on the bus and the faults: each
    [query_param_all] is made right after [set_callback_mode_all(PARAM)],
    at a moment when all eight motors are in [PARAM] mode, and is followed
    by [recv_all(2000)] (unless the query itself threw, and the run ends
    with status -1).  In a run that meets no fault the query is indeed
    issued. *)
Theorem query_issued_in_param_mode
  (K : dm_motor_constants) (E : environment) (argv : list string) :
  query_guarded (exit_status (QueryControlMode.main K E argv))
    (calls_of (trace_of (QueryControlMode.main K E argv)))
  /\ query_guarded (exit_status (SetControlMode.main K E argv))
       (calls_of (trace_of (SetControlMode.main K E argv)))
  /\ (bad_argc argv = false -> no_fault_below E 11 ->
      In (CQueryParamAll (CTRL_MODE K))
         (issued (trace_of (QueryControlMode.main K E argv)))
      /\ In (CQueryParamAll (CTRL_MODE K))
           (issued (trace_of (SetControlMode.main K E argv)))).
Proof.
  destruct (bad_argc argv) eqn:Hargc.
  - unfold exit_status, trace_of.
    rewrite (query_bad_argc K E argv Hargc), (set_bad_argc K E argv Hargc).
    cbn [fst snd calls_of].
    assert (Hnil : forall status, query_guarded status []).
    { intros status l rid modes post Hcs. destruct l; discriminate Hcs. }
    split; [apply Hnil|]. split; [apply Hnil|]. discriminate.
  - split; [apply query_run_guarded; exact Hargc|].
    split; [apply set_run_guarded; exact Hargc|].
    intros _ Hnone.
    assert (H7 : no_fault_below E 7) by (intros k Hk; apply Hnone; lia).
    assert (Hs : no_fault_below E (length (SetControlMode.plan K E argv))).
    { intros k Hk. apply Hnone. unfold SetControlMode.plan in Hk.
      destruct (SetControlMode.target_valid K E); cbn in Hk; lia. }
    destruct (query_run_ok K E argv Hargc H7) as [_ ->].
    destruct (set_run_ok K E argv Hargc Hs) as (_ & -> & _).
    split; cbn; auto 10.
Qed.

Lemma query_issued_in_param_mode_witness :
  let E := quiet_environment (Some 2) in
  In (CQueryParamAll 10)
     (issued (trace_of (QueryControlMode.main sample_constants E sample_argv)))
  /\ In (CQueryParamAll 10)
       (issued (trace_of (SetControlMode.main sample_constants E sample_argv))).
Proof.
  intros E.
  destruct (query_issued_in_param_mode sample_constants E sample_argv)
    as (_ & _ & Hissued).
  apply Hissued; [reflexivity | intros k _; reflexivity].
Defined.

(** ** C4: the cleanup runs on every path that does not throw *)

(** C4.  For either program, a run that does not throw (it returns 0) ends
    its library calls with the cleanup: [set_callback_mode_all(STATE)],
    [disable_all], [recv_all(1000)]; a run that meets no fault does not
    throw; and in the set-control-mode session this holds in particular
    when the operator's entry was rejected, where no write is issued. *)
Theorem cleanup_on_every_normal_path
  (K : dm_motor_constants) (E : environment) (argv : list string) :
  bad_argc argv = false ->
  (exit_status (QueryControlMode.main K E argv) = Ok 0 ->
   cleanup `suffix_of` issued (trace_of (QueryControlMode.main K E argv)))
  /\ (exit_status (SetControlMode.main K E argv) = Ok 0 ->
      cleanup `suffix_of` issued (trace_of (SetControlMode.main K E argv)))
  /\ (no_fault_below E 11 ->
      exit_status (QueryControlMode.main K E argv) = Ok 0
      /\ exit_status (SetControlMode.main K E argv) = Ok 0)
  /\ (no_fault_below E 11 -> SetControlMode.target_valid K E = false ->
      cleanup `suffix_of` issued (trace_of (SetControlMode.main K E argv))
      /\ forall rid x,
          ~ In (CWriteParamAll rid x)
               (issued (trace_of (SetControlMode.main K E argv)))).
Proof.
  intros Hargc.
  assert (Hq : exit_status (QueryControlMode.main K E argv) = Ok 0 ->
               cleanup `suffix_of`
                 issued (trace_of (QueryControlMode.main K E argv))).
  { intros Hexit. destruct (fault_or_not E 7) as [Hnone|(k & what & Hk & Hf)].
    - destruct (query_run_ok K E argv Hargc Hnone) as [_ ->].
      do 2 apply suffix_app_r. reflexivity.
    - destruct (query_run_fault K E argv Hargc k what Hf Hk) as [Hminus _].
      rewrite Hminus in Hexit. discriminate. }
  assert (Hs : exit_status (SetControlMode.main K E argv) = Ok 0 ->
               cleanup `suffix_of`
                 issued (trace_of (SetControlMode.main K E argv))).
  { intros Hexit.
    destruct (fault_or_not E (length (SetControlMode.plan K E argv)))
      as [Hnone|(k & what & Hk & Hf)].
    - destruct (set_run_ok K E argv Hargc Hnone) as (_ & -> & _).
      do 4 apply suffix_app_r. reflexivity.
    - destruct (set_run_fault K E argv Hargc k what Hf Hk) as [Hminus _].
      rewrite Hminus in Hexit. discriminate. }
  assert (Hok : no_fault_below E 11 ->
                exit_status (QueryControlMode.main K E argv) = Ok 0
                /\ exit_status (SetControlMode.main K E argv) = Ok 0).
  { intros Hnone. split.
    - apply query_run_ok; [exact Hargc|]. intros k Hk. apply Hnone. lia.
    - apply set_run_ok; [exact Hargc|]. intros k Hk. apply Hnone.
      unfold SetControlMode.plan in Hk.
      destruct (SetControlMode.target_valid K E); cbn in Hk; lia. }
  split; [exact Hq|]. split; [exact Hs|]. split; [exact Hok|].
  intros Hnone V. split; [apply Hs, Hok, Hnone|].
  intros rid x Hin.
  destruct (set_write_needs_valid K E argv Hargc rid x Hin) as [V' _].
  congruence.
Qed.

Lemma cleanup_on_every_normal_path_witness :
  let E := quiet_environment (Some 0) in
  cleanup `suffix_of`
    issued (trace_of (QueryControlMode.main sample_constants E sample_argv))
  /\ cleanup `suffix_of`
       issued (trace_of (SetControlMode.main sample_constants E sample_argv)).
Proof.
  intros E.
  destruct (cleanup_on_every_normal_path sample_constants E sample_argv)
    as (Hq & Hs & Hok & _); [reflexivity|].
  destruct Hok as [Hq0 Hs0]; [intros k _; reflexivity|].
  split; [apply Hq, Hq0 | apply Hs, Hs0].
Defined.

(** ** C5: a fault during the cleanup *)

(** C5, as stated, fails: with a valid entry and every call of the main
    operation succeeding, a fault of [disable_all] turns the status from 0
    into -1; up to that call the two runs issue the same calls. *)
Lemma cleanup_fault_changes_status :
  let ok := SetControlMode.main sample_constants
              (quiet_environment (Some 2)) sample_argv in
  let faulty := SetControlMode.main sample_constants
                  (faulty_environment (Some 2) 9 "send failed") sample_argv in
  exit_status ok = Ok 0
  /\ exit_status faulty = Ok (-1)
  /\ nth 12 (issued (trace_of faulty)) (CRecvAll 0) = CDisableAll
  /\ issued (trace_of faulty) = take 13 (issued (trace_of ok))
  /\ exit_status faulty <> exit_status ok.
Proof. vm_compute. repeat split; discriminate. Qed.

(** C5, amended.  A fault raised during the cleanup ([disable_all] or the
    final [recv_all(1000)]) is caught by the same handler as any other
    fault: it is reported on the error stream and the program returns -1,
    also when every call of the main operation had succeeded. *)
Theorem cleanup_fault_exits_minus_one
  (K : dm_motor_constants) (E : environment) (argv : list string)
  (k : nat) (what : string) :
  bad_argc argv = false ->
  first_fault E k what ->
  (k = 5%nat \/ k = 6%nat ->
   exit_status (QueryControlMode.main K E argv) = Ok (-1)
   /\ ends_with_report (trace_of (QueryControlMode.main K E argv))
        (if Nat.eqb k 5 then CDisableAll else CRecvAll 1000) what)
  /\ let n := length (SetControlMode.plan K E argv) in
     (k = (n - 2)%nat \/ k = (n - 1)%nat ->
      exit_status (SetControlMode.main K E argv) = Ok (-1)
      /\ ends_with_report (trace_of (SetControlMode.main K E argv))
           (if Nat.eqb k (n - 2) then CDisableAll else CRecvAll 1000) what).
Proof.
  intros Hargc Hf. split.
  - intros Hk.
    destruct (query_run_fault K E argv Hargc k what Hf) as (Hexit & Hend & _);
      [lia|].
    split; [exact Hexit|]. destruct Hk as [-> | ->]; exact Hend.
  - intros n Hk.
    assert (Hn : (n = 9 \/ n = 11)%nat).
    { subst n. unfold SetControlMode.plan.
      destruct (SetControlMode.target_valid K E); cbn; auto. }
    destruct (set_run_fault K E argv Hargc k what Hf) as (Hexit & Hend & _);
      [fold n; lia|].
    split; [exact Hexit|].
    unfold SetControlMode.plan in *.
    destruct (SetControlMode.target_valid K E); cbn [app length] in *;
      subst n; destruct Hk as [-> | ->]; exact Hend.
Qed.

Lemma cleanup_fault_exits_minus_one_witness :
  let E := faulty_environment (Some 2) 9 "send failed" in
  exit_status (SetControlMode.main sample_constants E sample_argv) = Ok (-1)
  /\ ends_with_report (trace_of (SetControlMode.main sample_constants E sample_argv))
       CDisableAll "send failed".
Proof.
  intros E.
  destruct (cleanup_fault_exits_minus_one sample_constants E sample_argv
              9 "send failed") as [_ Hs];
    [reflexivity
    | split; [intros k Hk; cbn; destruct (Nat.eqb_spec k 9); [lia | reflexivity]
             | reflexivity] |].
  apply Hs. left. reflexivity.
Defined.

(** ** C6: argument count and faults *)

(** C6.  With a bad argument count either program returns 1 and makes no
    library call at all (the bus channel is never opened); what it writes
    is one line on the error stream, the usage line: "Usage: ", the
    program name, and the text of the arguments expected.  (With
    [argc = 0] there is no program name to print, and only the status and
    the absence of calls are stated.)  With a good count, when a call
    throws, the exception is caught at the top level: the line "Error: "
    with [what()] on the error stream follows the failed call at once, the
    program returns -1 (neither 0 nor 1), and the calls made are those of
    the plan up to the failed one, once each: nothing is retried and
    nothing follows. *)
Theorem statuses_of_bad_arguments_and_faults
  (K : dm_motor_constants) (E : environment) (argv : list string) :
  (bad_argc argv = true ->
   exit_status (QueryControlMode.main K E argv) = Ok 1
   /\ issued (trace_of (QueryControlMode.main K E argv)) = []
   /\ exit_status (SetControlMode.main K E argv) = Ok 1
   /\ issued (trace_of (SetControlMode.main K E argv)) = []
   /\ forall prog rest, argv = prog :: rest ->
        let line :=
          "Usage: " ++ prog ++ " " ++
          " <can interface> <optional fd mode: true/false. default: false>"
          ++ nl in
        trace_of (QueryControlMode.main K E argv) = [Cerr line]
        /\ trace_of (SetControlMode.main K E argv) = [Cerr line])
  /\ (bad_argc argv = false ->
      forall k what, first_fault E k what ->
        ((k < length (QueryControlMode.plan K argv))%nat ->
         exit_status (QueryControlMode.main K E argv) = Ok (-1)
         /\ (exists modes,
               [Call (nth k (QueryControlMode.plan K argv) CDisableAll) modes;
                Cerr ("Error: " ++ what ++ nl)]
               `suffix_of` trace_of (QueryControlMode.main K E argv))
         /\ fallible_calls (trace_of (QueryControlMode.main K E argv))
            = take (S k) (QueryControlMode.plan K argv))
        /\ ((k < length (SetControlMode.plan K E argv))%nat ->
            exit_status (SetControlMode.main K E argv) = Ok (-1)
            /\ (exists modes,
                  [Call (nth k (SetControlMode.plan K E argv) CDisableAll)
                     modes;
                   Cerr ("Error: " ++ what ++ nl)]
                  `suffix_of` trace_of (SetControlMode.main K E argv))
            /\ fallible_calls (trace_of (SetControlMode.main K E argv))
               = take (S k) (SetControlMode.plan K E argv))).
Proof.
  split.
  - intros Hargc. unfold exit_status, trace_of.
    rewrite (query_bad_argc K E argv Hargc), (set_bad_argc K E argv Hargc).
    do 4 (split; [reflexivity|]).
    intros prog rest ->. split; reflexivity.
  - intros Hargc k what Hf. split; intros Hk.
    + destruct (query_run_fault K E argv Hargc k what Hf Hk)
        as (Hexit & Hend & Hcalls).
      split; [exact Hexit|]. split; [exact Hend | exact Hcalls].
    + destruct (set_run_fault K E argv Hargc k what Hf Hk)
        as (Hexit & Hend & Hcalls).
      split; [exact Hexit|]. split; [exact Hend | exact Hcalls].
Qed.

Lemma statuses_of_bad_arguments_and_faults_witness :
  (exit_status (QueryControlMode.main sample_constants
                  (quiet_environment None) ["query_control_mode"]) = Ok 1
   /\ trace_of (QueryControlMode.main sample_constants
                  (quiet_environment None) ["query_control_mode"])
      = [Cerr ("Usage: query_control_mode  <can interface> <optional fd mode: true/false. default: false>"
               ++ nl)])
  /\ (let E := faulty_environment None 4 "recv failed" in
      exit_status (QueryControlMode.main sample_constants E sample_argv) = Ok (-1)
      /\ exists modes,
          [Call (CRecvAll 2000) modes; Cerr ("Error: recv failed" ++ nl)]
          `suffix_of`
          trace_of (QueryControlMode.main sample_constants E sample_argv)).
Proof.
  split.
  - destruct (statuses_of_bad_arguments_and_faults sample_constants
                (quiet_environment None) ["query_control_mode"])
      as [Hbad _].
    destruct Hbad as (H1 & _ & _ & _ & Hline); [reflexivity|].
    split; [exact H1|].
    exact (proj1 (Hline "query_control_mode" [] eq_refl)).
  - intros E.
    destruct (statuses_of_bad_arguments_and_faults sample_constants
                E sample_argv) as [_ Hfault].
    destruct (Hfault eq_refl 4%nat "recv failed") as [Hq _].
    { split; [|reflexivity].
      intros k Hk. cbn. destruct (Nat.eqb_spec k 4); [lia | reflexivity]. }
    destruct Hq as (H1 & H2 & _); [cbn; lia|]. split; assumption.
Defined.

(** ** C7: the listing of the available modes *)



(** ** C8: the motor tables *)

(** C8.  The arm tables are the outbound addresses 0x01..0x07 and the
    inbound addresses 0x11..0x17, seven motors paired in order; with the
    gripper's outbound 0x08 and inbound 0x18 all sixteen addresses are
    pairwise different, so in particular the outbound ones and the inbound
    ones are; and both programs pass exactly these tables, and the gripper
    motor 0x08 / 0x18, to the library. *)
Theorem motor_tables :
  send_can_ids = seqZ 0x01 7
  /\ recv_can_ids = seqZ 0x11 7
  /\ length motor_types = 7%nat
  /\ map (fun m => (send_can_id m, recv_can_id m))
         (make_motors motor_types send_can_ids recv_can_ids)
     = map (fun i => (0x01 + i, 0x11 + i)) (seqZ 0 7)
  /\ NoDup (send_can_ids ++ [0x08])
  /\ NoDup (recv_can_ids ++ [0x18])
  /\ NoDup ((send_can_ids ++ [0x08]) ++ recv_can_ids ++ [0x18])
  /\ forall (K : dm_motor_constants) (E : environment) (argv : list string),
      bad_argc argv = false -> no_fault_below E 11 ->
      let tables :=
        [CInitArmMotors [DM8009; DM8009; DM4340; DM4340; DM4310; DM4310; DM4310]
           [0x01; 0x02; 0x03; 0x04; 0x05; 0x06; 0x07]
           [0x11; 0x12; 0x13; 0x14; 0x15; 0x16; 0x17];
         CInitGripperMotor DM4310 0x08 0x18] in
      (exists a rest,
          issued (trace_of (QueryControlMode.main K E argv))
          = (a :: tables ++ rest)%list)
      /\ (exists a rest,
            issued (trace_of (SetControlMode.main K E argv))
            = (a :: tables ++ rest)%list).
Proof.
  do 4 (split; [reflexivity|]). do 3 (split; [compute_done|]).
  intros K E argv Hargc Hnone. cbv zeta.
  assert (H7 : no_fault_below E 7) by (intros k Hk; apply Hnone; lia).
  assert (Hs : no_fault_below E (length (SetControlMode.plan K E argv))).
  { intros k Hk. apply Hnone. unfold SetControlMode.plan in Hk.
    destruct (SetControlMode.target_valid K E); cbn in Hk; lia. }
  destruct (query_run_ok K E argv Hargc H7) as [_ ->].
  destruct (set_run_ok K E argv Hargc Hs) as (_ & -> & _).
  split; do 2 eexists; cbn [app]; reflexivity.
Qed.

Lemma motor_tables_witness :
  exists a rest,
    issued (trace_of (QueryControlMode.main sample_constants
                        (quiet_environment None) sample_argv))
    = (a :: [CInitArmMotors motor_types send_can_ids recv_can_ids;
             CInitGripperMotor DM4310 0x08 0x18] ++ rest)%list.
Proof.
  destruct motor_tables as (_ & _ & _ & _ & _ & _ & _ & Hprograms).
  destruct (Hprograms sample_constants (quiet_environment None) sample_argv)
    as [Hq _]; [reflexivity | intros k _; reflexivity |].
  exact Hq.
Defined.

(** ** C9: the flexible-data-mode flag *)

(** C9.  The flag is on exactly when there are three arguments and the
    third, with its capital letters lowered, is the string "true"; so it is
    off when the argument is omitted, and off for "1", "yes", "TRUE " (with
    a trailing space) and other text, on for "TRUE" and "tRuE".  Whatever
    the third argument, a run with a good argument count writes nothing on
    the error stream before it opens the bus channel with that flag, and
    does not return the usage status 1. *)
Theorem can_fd_flag :
  (forall argv,
     parse_can_fd argv = true
     <-> length argv = 3%nat /\ transform tolower (arg argv 2) = "true")
  /\ (forall prog can,
        parse_can_fd [prog; can] = false
        /\ parse_can_fd [prog; can; "1"] = false
        /\ parse_can_fd [prog; can; "yes"] = false
        /\ parse_can_fd [prog; can; "TRUE "] = false
        /\ parse_can_fd [prog; can; "garbage"] = false
        /\ parse_can_fd [prog; can; "TRUE"] = true
        /\ parse_can_fd [prog; can; "tRuE"] = true)
  /\ (forall (K : dm_motor_constants) (E : environment) (argv : list string),
        bad_argc argv = false ->
        (exists console rest,
            trace_of (QueryControlMode.main K E argv)
            = (map Cout console
               ++ Call (COpenArm (arg argv 1) (parse_can_fd argv)) [] :: rest)%list)
        /\ (exists console rest,
              trace_of (SetControlMode.main K E argv)
              = (map Cout console
                 ++ Call (COpenArm (arg argv 1) (parse_can_fd argv)) [] :: rest)%list)
        /\ exit_status (QueryControlMode.main K E argv) <> Ok 1
        /\ exit_status (SetControlMode.main K E argv) <> Ok 1).
Proof.
  split; [|split].
  - intros argv. unfold parse_can_fd.
    destruct (Z.eqb_spec (Z.of_nat (length argv)) 3) as [Hlen|Hlen].
    + rewrite String.eqb_eq. split; [intros H; split; [lia | exact H] | tauto].
    + split; [discriminate | intros [H _]; lia].
  - intros prog can. repeat split.
  - intros K E argv Hargc.
    destruct (query_run_prefix K E argv Hargc) as [Hqs [restq Hq]].
    destruct (set_run_prefix K E argv Hargc) as [Hss [rests Hs]].
    assert (Hpre : exists console,
      preamble K argv
      = (map Cout console
         ++ [Call (COpenArm (arg argv 1) (parse_can_fd argv)) []])%list).
    { unfold preamble.
      exists ([("=== Query Control Mode ===" ++ nl)%string;
               ("Query robot motor control mode" ++ nl)%string;
               ("Available modes:" ++ nl)%string]
              ++ map (mode_line K)
                   (size_t_range (size_t (size_t (minMode K) + 1)) (maxMode K))
              ++ [("Initializing OpenArm CAN..." ++ nl)%string;
                  ("Interface: " ++ arg argv 1 ++ nl)%string;
                  ("Flexible Data Mode: "
                   ++ (if parse_can_fd argv then "true" else "false") ++ nl)%string])%list.
      rewrite !map_app, map_map, <- !app_assoc. reflexivity. }
    destruct Hpre as [console Hpre]. rewrite Hpre in Hq, Hs.
    split; [exists console, restq; rewrite Hq, <- app_assoc; reflexivity|].
    split; [exists console, rests; rewrite Hs, <- app_assoc; reflexivity|].
    split; [destruct Hqs as [-> | ->] | destruct Hss as [-> | ->]];
      discriminate.
Qed.

Lemma can_fd_flag_witness :
  let argv := ["query_control_mode"; "can0"; "yes"] in
  exists console rest,
    trace_of (QueryControlMode.main sample_constants
                (quiet_environment None) argv)
    = (map Cout console ++ Call (COpenArm "can0" false) [] :: rest)%list.
Proof.
  intros argv.
  destruct can_fd_flag as (_ & _ & Hprograms).
  destruct (Hprograms sample_constants (quiet_environment None) argv)
    as (Hq & _); [reflexivity|].
  exact Hq.
Defined.

(** ** C10: rounding in one program, truncation in the other *)

(** C10, as stated, fails: the stored value 4294967296.5 has fractional
    part one half, and on an x86-64 build both programs show the code 0
    for it (neither 4294967297 nor 4294967296 fits the 8-bit code). *)
Lemma same_code_beyond_uint8 :
  let x := (8589934593 # 2)%Q in
  (1 # 2 <= fraction x)%Q
  /\ QueryControlMode.control_mode_code x86_environment x
     = SetControlMode.control_mode_code x86_environment x.
Proof. vm_compute. split; [discriminate | reflexivity]. Qed.

(** C10, amended.  The query program rounds the stored value before
    narrowing it to an 8-bit code ([std::round], halves away from zero) and
    the query-and-set program truncates it.  For every stored value whose
    fractional part is at least one half, rounding and truncation give
    integers one apart; and when the value lies in the range where both
    narrowings are defined, [0 <= x < 255.5], the query-and-set program
    shows the integer part of [x] and the query program shows one more, so
    the two displayed codes differ. *)
Theorem round_versus_truncate (E : environment) (x : Q) :
  (1 # 2 <= fraction x)%Q ->
  std_round x = Qtrunc x + (if Qle_bool 0 x then 1 else -1)
  /\ ((0 <= x)%Q -> (x < 511 # 2)%Q ->
      SetControlMode.control_mode_code E x = Qfloor x
      /\ QueryControlMode.control_mode_code E x
         = SetControlMode.control_mode_code E x + 1
      /\ to_string (QueryControlMode.control_mode_code E x)
         <> to_string (SetControlMode.control_mode_code E x)).
Proof.
  intros Hf. pose proof (trunc_round x Hf) as Hround.
  split; [exact Hround|]. intros Hpos Hhi.
  assert (Hs : Qle_bool 0 x = true) by (apply Qle_bool_iff; exact Hpos).
  rewrite Hs in Hround.
  assert (Htrunc : Qtrunc x = Qfloor x) by (unfold Qtrunc; rewrite Hs; reflexivity).
  assert (Hfloor : 0 <= Qfloor x <= 254).
  { unfold fraction in Hf.
    assert (Habs : Qabs x == x) by (apply Qabs_pos; exact Hpos).
    rewrite (Qfloor_comp _ _ Habs), Habs in Hf.
    split.
    - change 0 with (Qfloor (inject_Z 0)). apply Qfloor_resp_le. exact Hpos.
    - assert (H : (inject_Z (Qfloor x) < inject_Z 255)%Q).
      { change (inject_Z 255) with 255%Q. lra. }
      rewrite <- Zlt_Qlt in H. lia. }
  assert (Hset : SetControlMode.control_mode_code E x = Qfloor x).
  { unfold SetControlMode.control_mode_code, double_to_uint8. rewrite Htrunc.
    destruct (Z.leb_spec 0 (Qfloor x)), (Z.leb_spec (Qfloor x) 255);
      cbn; try reflexivity; lia. }
  assert (Hquery : QueryControlMode.control_mode_code E x = Qfloor x + 1).
  { unfold QueryControlMode.control_mode_code, double_to_uint8.
    rewrite Hround, Htrunc.
    assert (Hz : Qtrunc (inject_Z (Qfloor x + 1)) = Qfloor x + 1).
    { unfold Qtrunc.
      destruct (Qle_bool 0 (inject_Z (Qfloor x + 1))); [apply Qfloor_Z|].
      apply Qceiling_Z. }
    rewrite Hz.
    destruct (Z.leb_spec 0 (Qfloor x + 1)), (Z.leb_spec (Qfloor x + 1) 255);
      cbn; try reflexivity; lia. }
  split; [exact Hset|]. split; [rewrite Hquery, Hset; reflexivity|].
  intros Heq. apply to_string_inj in Heq. rewrite Hquery, Hset in Heq. lia.
Qed.

Lemma round_versus_truncate_witness :
  let E := quiet_environment None in
  SetControlMode.control_mode_code E (8 # 5) = 1
  /\ QueryControlMode.control_mode_code E (8 # 5) = 2.
Proof.
  intros E.
  destruct (round_versus_truncate E (8 # 5)) as [_ Hcodes];
    [vm_compute; discriminate|].
  destruct Hcodes as (Hset & Hquery & _);
    [vm_compute; discriminate | vm_compute; reflexivity |].
  rewrite Hquery, Hset. split; reflexivity.
Defined.

(** The same stored value, 1.6 in every motor, as each program shows it. *)
Example query_program_shows_2 :
  In (Cout ("Arm Motor: 1 Motor Control Mode: 2 - POS_VEL" ++ nl))
     (trace_of (QueryControlMode.main sample_constants
                  (quiet_environment None) sample_argv)).
Proof. vm_compute. auto 20. Qed.

Example set_program_shows_1 :
  In (Cout ("Arm Motor: 1 Motor Control Mode: 1 - MIT" ++ nl))
     (trace_of (SetControlMode.main sample_constants
                  (quiet_environment None) sample_argv)).
Proof. vm_compute. auto 30. Qed.

(* ===================================================================== *)
(** * Further properties of the two programs *)
(* ===================================================================== *)

Lemma cerr_lines_app (t1 t2 : trace) :
  cerr_lines (t1 ++ t2)%list = (cerr_lines t1 ++ cerr_lines t2)%list.
Proof.
  induction t1 as [|[s|s|c ms] t1 IH]; cbn; rewrite ?IH; reflexivity.
Qed.

Lemma cerr_lines_couts {A} (f : A -> string) (l : list A) :
  cerr_lines (map (fun x => Cout (f x)) l) = [].
Proof. induction l as [|x l IH]; cbn; [reflexivity | exact IH]. Qed.

(** The error lines of an unfolded trace. *)
Ltac cerrs :=
  repeat first
    [ progress cbn [cerr_lines app]
    | rewrite cerr_lines_app
    | rewrite cerr_lines_couts ].

Ltac cleanup_modes :=
  repeat match goal with
         | |- Forall _ (_ :: _) => constructor
         | |- Forall _ [] => constructor
         end;
  unfold cleanup_in_state_mode; cbn [fst snd];
  let Hc := fresh "Hc" in
  intros Hc; compute in Hc; try discriminate Hc;
  unfold made_one_more; cbn [arm gripper calls_made];
  rewrite ?modes_after_set;
  repeat first [rewrite length_deliver_all | rewrite length_map];
  reflexivity.

Section Observations.
Variable K : dm_motor_constants.
Variable E : environment.
Variable argv : list string.
Hypothesis Hargc : bad_argc argv = false.

Lemma query_run_observations :
  ((exit_status (QueryControlMode.main K E argv) = Ok 0
    /\ cerr_lines (trace_of (QueryControlMode.main K E argv)) = [])
   \/ (exit_status (QueryControlMode.main K E argv) = Ok (-1)
       /\ exists what,
           cerr_lines (trace_of (QueryControlMode.main K E argv))
           = [error_line what]))
  /\ write_count (trace_of (QueryControlMode.main K E argv)) = 0%nat
  /\ Forall cleanup_in_state_mode
       (calls_of (trace_of (QueryControlMode.main K E argv))).
Proof.
  unfold exit_status, trace_of.
  destruct (QueryControlMode.main K E argv initial_world) as [[o w] t] eqn:H.
  cbn [fst snd]. start_query H Hargc. paths E 0%nat H.
  all: injection H as <- <- <-; split;
    [ first [ left; split; [reflexivity | cerrs; reflexivity]
            | right; split; [reflexivity | eexists; cerrs; reflexivity] ]
    | split; [unfold write_count; calls; reflexivity | calls; cleanup_modes] ].
Qed.

Lemma set_run_observations :
  ((exit_status (SetControlMode.main K E argv) = Ok 0
    /\ cerr_lines (trace_of (SetControlMode.main K E argv)) = [])
   \/ (exit_status (SetControlMode.main K E argv) = Ok (-1)
       /\ exists what,
           cerr_lines (trace_of (SetControlMode.main K E argv))
           = [error_line what]))
  /\ (write_count (trace_of (SetControlMode.main K E argv)) <= 1)%nat
  /\ Forall cleanup_in_state_mode
       (calls_of (trace_of (SetControlMode.main K E argv))).
Proof.
  unfold exit_status, trace_of.
  destruct (SetControlMode.main K E argv initial_world) as [[o w] t] eqn:H.
  cbn [fst snd]. start_set H Hargc. split_valid K E H.
  destruct (SetControlMode.target_valid K E) eqn:V;
    cbv beta iota in H; repeat step H; paths E 0%nat H.
  all: injection H as <- <- <-; split;
    [ first [ left; split; [reflexivity | cerrs; reflexivity]
            | right; split; [reflexivity | eexists; cerrs; reflexivity] ]
    | split; [unfold write_count; calls; cbn; lia | calls; cleanup_modes] ].
Qed.

End Observations.

(** ** Exit status *)

Lemma status_trichotomy (status : outcome Z) (bad : bool)
  (E : environment) (n : nat) :
  (bad = true -> status = Ok 1) ->
  (bad = false -> no_fault_below E n -> status = Ok 0) ->
  (bad = false -> forall k what,
      (k < n)%nat -> first_fault E k what -> status = Ok (-1)) ->
  (status = Ok 1 <-> bad = true)
  /\ (status = Ok 0 <-> bad = false /\ no_fault_below E n)
  /\ (status = Ok (-1) <-> bad = false /\ ~ no_fault_below E n).
Proof.
  intros Hbad Hok Hfault.
  assert (Hsome : forall k what,
             (k < n)%nat -> first_fault E k what -> ~ no_fault_below E n).
  { intros k what Hk [_ Hf] Hnone. rewrite (Hnone k Hk) in Hf. discriminate. }
  destruct bad.
  - rewrite (Hbad eq_refl). split; [split; reflexivity|].
    split; (split; [discriminate | intros [H _]; discriminate]).
  - destruct (fault_or_not E n) as [Hnone|(k & what & Hk & Hf)].
    + rewrite (Hok eq_refl Hnone). split; [split; discriminate|].
      split; [split; [intros _; split; [reflexivity | exact Hnone]
                     | reflexivity]|].
      split; [discriminate | intros [_ H]; contradiction].
    + rewrite (Hfault eq_refl k what Hk Hf). split; [split; discriminate|].
      split; [split; [discriminate|]|].
      * intros [_ H]. exfalso. exact (Hsome k what Hk Hf H).
      * split; [|reflexivity].
        intros _. split; [reflexivity | exact (Hsome k what Hk Hf)].
Qed.

(** X1.  The value either program returns is decided by the argument count
    and the faults alone: 1 exactly for a bad argument count; 0 exactly
    when the count is good and none of the calls of its plan throws; -1
    exactly when the count is good and one of them throws.  No exception
    leaves [main]. *)
Theorem exit_status_determined
  (K : dm_motor_constants) (E : environment) (argv : list string) :
  let q := exit_status (QueryControlMode.main K E argv) in
  let s := exit_status (SetControlMode.main K E argv) in
  let n := length (SetControlMode.plan K E argv) in
  ((q = Ok 1 <-> bad_argc argv = true)
   /\ (q = Ok 0 <-> bad_argc argv = false /\ no_fault_below E 7)
   /\ (q = Ok (-1) <-> bad_argc argv = false /\ ~ no_fault_below E 7))
  /\ ((s = Ok 1 <-> bad_argc argv = true)
      /\ (s = Ok 0 <-> bad_argc argv = false /\ no_fault_below E n)
      /\ (s = Ok (-1) <-> bad_argc argv = false /\ ~ no_fault_below E n)).
Proof.
  cbv zeta. split; apply status_trichotomy.
  - intros Hargc. unfold exit_status.
    rewrite (query_bad_argc K E argv Hargc). reflexivity.
  - intros Hargc Hnone. apply query_run_ok; assumption.
  - intros Hargc k what Hk Hf. apply (query_run_fault K E argv Hargc k what Hf Hk).
  - intros Hargc. unfold exit_status.
    rewrite (set_bad_argc K E argv Hargc). reflexivity.
  - intros Hargc Hnone. apply set_run_ok; assumption.
  - intros Hargc k what Hk Hf. apply (set_run_fault K E argv Hargc k what Hf Hk).
Qed.

Lemma exit_status_determined_witness :
  exit_status (QueryControlMode.main sample_constants
                 (quiet_environment None) sample_argv) = Ok 0
  /\ exit_status (SetControlMode.main sample_constants
                    (quiet_environment None) ["set_control_mode"]) = Ok 1.
Proof.
  destruct (exit_status_determined sample_constants
              (quiet_environment None) sample_argv) as [(_ & Hq & _) _].
  destruct (exit_status_determined sample_constants
              (quiet_environment None) ["set_control_mode"])
    as [_ (Hs & _ & _)].
  split.
  - apply Hq. split; [reflexivity | intros k _; reflexivity].
  - apply Hs. reflexivity.
Defined.

(** ** The error stream *)

(** X2.  Either program writes on the error stream only when it fails, and
    then one line only: nothing in a run that returns 0; for a bad
    argument count (with a program name, [argc >= 1]) the usage line
    alone, "Usage: ", the name and the text of the arguments expected; and
    when a call throws, the line "Error: " with the [what()] of the first
    fault alone. *)
Theorem error_stream_discipline
  (K : dm_motor_constants) (E : environment) (argv : list string) :
  let tq := trace_of (QueryControlMode.main K E argv) in
  let ts := trace_of (SetControlMode.main K E argv) in
  (exit_status (QueryControlMode.main K E argv) = Ok 0 -> cerr_lines tq = [])
  /\ (exit_status (SetControlMode.main K E argv) = Ok 0 -> cerr_lines ts = [])
  /\ (bad_argc argv = true -> forall prog rest, argv = prog :: rest ->
      let line :=
        "Usage: " ++ prog ++ " " ++
        " <can interface> <optional fd mode: true/false. default: false>"
        ++ nl in
      cerr_lines tq = [line] /\ cerr_lines ts = [line])
  /\ (bad_argc argv = false -> forall k what, first_fault E k what ->
      ((k < 7)%nat -> cerr_lines tq = ["Error: " ++ what ++ nl])
      /\ ((k < length (SetControlMode.plan K E argv))%nat ->
          cerr_lines ts = ["Error: " ++ what ++ nl])).
Proof.
  cbv zeta.
  assert (Hlast : forall (t : trace) c what what',
             ends_with_report t c what -> cerr_lines t = [error_line what'] ->
             cerr_lines t = ["Error: " ++ what ++ nl]).
  { intros t c what what' [modes [l ->]] Hone.
    rewrite cerr_lines_app in Hone |- *. cbn [cerr_lines] in Hone |- *.
    destruct (cerr_lines l) as [|e l']; [reflexivity|].
    destruct l'; discriminate Hone. }
  destruct (bad_argc argv) eqn:Hargc.
  - unfold exit_status, trace_of.
    rewrite (query_bad_argc K E argv Hargc), (set_bad_argc K E argv Hargc).
    cbn [fst snd cerr_lines].
    split; [discriminate|]. split; [discriminate|].
    split; [|discriminate].
    intros _ prog rest ->. split; reflexivity.
  - destruct (query_run_observations K E argv Hargc)
      as ([[Hq0 Hqe]|[Hq1 [wq Hqe]]] & _);
    destruct (set_run_observations K E argv Hargc)
      as ([[Hs0 Hse]|[Hs1 [ws Hse]]] & _);
    (split; [intros Hexit; first [exact Hqe | rewrite Hq1 in Hexit; discriminate]|]);
    (split; [intros Hexit; first [exact Hse | rewrite Hs1 in Hexit; discriminate]|]);
    (split; [discriminate|]);
    intros _ k what Hf; split; intros Hk.
    all: try (destruct (query_run_fault K E argv Hargc k what Hf Hk)
                as (Hm & Hend & _);
              first [ rewrite Hq0 in Hm; discriminate
                    | exact (Hlast _ _ _ _ Hend Hqe) ]).
    all: destruct (set_run_fault K E argv Hargc k what Hf Hk)
           as (Hm & Hend & _);
         first [ rewrite Hs0 in Hm; discriminate
               | exact (Hlast _ _ _ _ Hend Hse) ].
Qed.

Lemma error_stream_discipline_witness :
  cerr_lines (trace_of (QueryControlMode.main sample_constants
                          (quiet_environment None) ["query_control_mode"]))
  = ["Usage: query_control_mode  <can interface> <optional fd mode: true/false. default: false>"
     ++ nl]
  /\ cerr_lines (trace_of (SetControlMode.main sample_constants
                             (faulty_environment (Some 2) 5 "write failed")
                             sample_argv))
     = ["Error: write failed" ++ nl].
Proof.
  split.
  - destruct (error_stream_discipline sample_constants
                (quiet_environment None) ["query_control_mode"])
      as (_ & _ & Hbad & _).
    exact (proj1 (Hbad eq_refl "query_control_mode" [] eq_refl)).
  - destruct (error_stream_discipline sample_constants
                (faulty_environment (Some 2) 5 "write failed") sample_argv)
      as (_ & _ & _ & Hfault).
    apply (Hfault eq_refl 5%nat "write failed").
    + split; [|reflexivity].
      intros k Hk. cbn. destruct (Nat.eqb_spec k 5); [lia | reflexivity].
    + vm_compute. lia.
Defined.

(** ** Writes *)

(** X3.  The query program never issues a [write_param_all], in any run;
    the query-and-set program issues at most one. *)
Theorem writes_never_or_once
  (K : dm_motor_constants) (E : environment) (argv : list string) :
  write_count (trace_of (QueryControlMode.main K E argv)) = 0%nat
  /\ (write_count (trace_of (SetControlMode.main K E argv)) <= 1)%nat.
Proof.
  destruct (bad_argc argv) eqn:Hargc.
  - unfold trace_of.
    rewrite (query_bad_argc K E argv Hargc), (set_bad_argc K E argv Hargc).
    cbn. split; [reflexivity | lia].
  - split.
    + apply (query_run_observations K E argv Hargc).
    + apply (set_run_observations K E argv Hargc).
Qed.

(** ** The cleanup and the callback mode *)

(** X4.  In every run of either program, [disable_all] and the collection
    [recv_all(1000)] that follows it are made with all eight motors back
    in [STATE] mode: neither is ever issued while a motor is still in
    [PARAM] mode. *)
Theorem cleanup_calls_in_state_mode
  (K : dm_motor_constants) (E : environment) (argv : list string)
  (c : call) (modes : list CallbackMode) :
  In (c, modes) (calls_of (trace_of (QueryControlMode.main K E argv)))
  \/ In (c, modes) (calls_of (trace_of (SetControlMode.main K E argv))) ->
  c = CDisableAll \/ c = CRecvAll 1000 ->
  modes = replicate 8 STATE.
Proof.
  intros Hin Hc.
  assert (Hio : is_cleanup_io c = true) by (destruct Hc as [-> | ->]; reflexivity).
  destruct (bad_argc argv) eqn:Hargc.
  - unfold trace_of in Hin.
    rewrite (query_bad_argc K E argv Hargc), (set_bad_argc K E argv Hargc)
      in Hin.
    destruct Hin as [[]|[]].
  - destruct (query_run_observations K E argv Hargc) as (_ & _ & Hq).
    destruct (set_run_observations K E argv Hargc) as (_ & _ & Hs).
    rewrite List.Forall_forall in Hq, Hs.
    destruct Hin as [Hin|Hin];
      [apply (Hq _ Hin) | apply (Hs _ Hin)]; exact Hio.
Qed.

Lemma cleanup_calls_in_state_mode_witness :
  exists modes,
    In (CDisableAll, modes)
       (calls_of (trace_of (QueryControlMode.main sample_constants
                              (quiet_environment None) sample_argv)))
    /\ modes = replicate 8 STATE.
Proof.
  eexists. split.
  - vm_compute. do 7 right. left. reflexivity.
  - apply (cleanup_calls_in_state_mode sample_constants
             (quiet_environment None) sample_argv CDisableAll).
    + left. vm_compute. do 7 right. left. reflexivity.
    + left. reflexivity.
Defined.

(** ** Entries that are not values of the type *)

Lemma int32_t_range (z : Z) : INT32_MIN <= int32_t z <= INT32_MAX.
Proof.
  unfold int32_t, INT32_MIN, INT32_MAX.
  pose proof (Z.mod_pos_bound (z + 2 ^ 31) (2 ^ 32) ltac:(lia)). lia.
Qed.

Lemma no_write_count (l : list call) :
  (forall rid x, ~ In (CWriteParamAll rid x) l) ->
  length (List.filter is_write l) = 0%nat.
Proof.
  induction l as [|c l IH]; intros Hno; [reflexivity|].
  cbn [List.filter].
  destruct c as [| | | | |wrid wvalue| |]; cbn [is_write];
    try (apply IH; intros r q Hin; apply (Hno r q); right; exact Hin).
  exfalso. apply (Hno wrid wvalue). left. reflexivity.
Qed.

(** A rejected entry: no write in any run, and the report in a run
    without faults. *)
Lemma rejected_entry K E argv :
  SetControlMode.target_valid K E = false ->
  write_count (trace_of (SetControlMode.main K E argv)) = 0%nat
  /\ (bad_argc argv = false -> no_fault_below E 9 ->
      In (Cout ("Invalid control mode value received: "
                ++ to_string (SetControlMode.target E) ++ nl))
         (trace_of (SetControlMode.main K E argv))).
Proof.
  intros V. split.
  - destruct (bad_argc argv) eqn:Hargc.
    + unfold trace_of. rewrite (set_bad_argc K E argv Hargc). reflexivity.
    + apply no_write_count. intros rid x Hin.
      destruct (set_write_needs_valid K E argv Hargc rid x Hin) as [V' _].
      congruence.
  - intros Hargc Hnone.
    apply (set_run_ok K E argv Hargc); [|exact V].
    unfold SetControlMode.plan. rewrite V. exact Hnone.
Qed.

(** X5.  An entry that does not fit [int32_t] leaves the nearest bound of
    the type in [target_control_mode]; it is rejected whatever the
    sentinels are, so it is never written, and the value reported as
    rejected is that bound, not the number typed. *)
Theorem overflowing_entry_rejected
  (K : dm_motor_constants) (E : environment) (argv : list string) (v : Z) :
  cin_entry E = Some v ->
  v < INT32_MIN \/ INT32_MAX < v ->
  SetControlMode.target E = (if v <? 0 then INT32_MIN else INT32_MAX)
  /\ SetControlMode.target_valid K E = false
  /\ write_count (trace_of (SetControlMode.main K E argv)) = 0%nat
  /\ (bad_argc argv = false -> no_fault_below E 9 ->
      In (Cout ("Invalid control mode value received: "
                ++ to_string (if v <? 0 then INT32_MIN else INT32_MAX) ++ nl))
         (trace_of (SetControlMode.main K E argv))).
Proof.
  intros Hv Hout.
  assert (Ht : SetControlMode.target E
               = (if v <? 0 then INT32_MIN else INT32_MAX)).
  { unfold SetControlMode.target. rewrite Hv. cbn [cin_int32].
    unfold INT32_MIN, INT32_MAX in *.
    destruct (Z.ltb_spec v 0); lia. }
  assert (V : SetControlMode.target_valid K E = false).
  { unfold SetControlMode.target_valid, SetControlMode.target_control_mode_valid.
    rewrite Ht.
    pose proof (int32_t_range (minMode K)).
    pose proof (int32_t_range (maxMode K)).
    apply andb_false_iff. rewrite !Z.ltb_ge.
    unfold INT32_MIN, INT32_MAX in *.
    destruct (Z.ltb_spec v 0); lia. }
  split; [exact Ht|]. split; [exact V|].
  rewrite <- Ht. apply rejected_entry. exact V.
Qed.

Lemma overflowing_entry_rejected_witness :
  let E := quiet_environment (Some 4294967298) in
  SetControlMode.target E = 2147483647
  /\ In (Cout ("Invalid control mode value received: 2147483647" ++ nl))
        (trace_of (SetControlMode.main sample_constants E sample_argv)).
Proof.
  intros E.
  destruct (overflowing_entry_rejected sample_constants E sample_argv
              4294967298) as (Ht & _ & _ & Hreport);
    [reflexivity | right; unfold INT32_MAX; lia |].
  split; [exact Ht|].
  apply Hreport; [reflexivity | intros k _; reflexivity].
Defined.

(** X6.  When no integer can be extracted from the operator's input (it
    does not start with a numeral, or it is at its end), 0 is left in
    [target_control_mode]: the entry is accepted exactly when 0 lies
    strictly between the sentinels, so with a lower sentinel that is not
    negative it is rejected, never written, and reported as the value 0.
    (Input that starts with a numeral, such as "2 3 4" or "2abc", is
    extracted as that integer and is not this case.) *)
Theorem unreadable_entry_is_zero
  (K : dm_motor_constants) (E : environment) (argv : list string) :
  cin_entry E = None ->
  SetControlMode.target E = 0
  /\ (SetControlMode.target_valid K E = true
      <-> int32_t (minMode K) < 0 < int32_t (maxMode K))
  /\ (0 <= minMode K <= INT32_MAX ->
      write_count (trace_of (SetControlMode.main K E argv)) = 0%nat
      /\ (bad_argc argv = false -> no_fault_below E 9 ->
          In (Cout ("Invalid control mode value received: "
                    ++ to_string 0 ++ nl))
             (trace_of (SetControlMode.main K E argv)))).
Proof.
  intros Hv.
  assert (Ht : SetControlMode.target E = 0)
    by (unfold SetControlMode.target; rewrite Hv; reflexivity).
  assert (Hiff : SetControlMode.target_valid K E = true
                 <-> int32_t (minMode K) < 0 < int32_t (maxMode K)).
  { unfold SetControlMode.target_valid, SetControlMode.target_control_mode_valid.
    rewrite Ht, andb_true_iff, !Z.ltb_lt. reflexivity. }
  split; [exact Ht|]. split; [exact Hiff|].
  intros Hmin. rewrite <- Ht. apply rejected_entry.
  destruct (SetControlMode.target_valid K E) eqn:V; [|reflexivity].
  destruct Hiff as [Hlt _]. specialize (Hlt eq_refl).
  rewrite int32_t_small in Hlt; unfold INT32_MIN, INT32_MAX in *; lia.
Qed.

Lemma unreadable_entry_is_zero_witness :
  let E := quiet_environment None in
  In (Cout ("Invalid control mode value received: " ++ to_string 0 ++ nl))
     (trace_of (SetControlMode.main sample_constants E sample_argv)).
Proof.
  intros E.
  destruct (unreadable_entry_is_zero sample_constants E sample_argv)
    as (_ & _ & Hzero); [reflexivity|].
  destruct Hzero as [_ Hreport]; [unfold INT32_MAX; cbn; lia|].
  apply Hreport; [reflexivity | intros k _; reflexivity].
Defined.

(** ** The spellings of the flag *)

Lemma tolower_t (c : ascii) :
  tolower c = "t"%char <-> c = "t"%char \/ c = "T"%char.
Proof.
  destruct c as [[] [] [] [] [] [] [] []]; vm_compute;
    (split; [intros H; first [discriminate H | auto]
            | intros [H|H]; first [discriminate H | reflexivity]]).
Qed.

Lemma tolower_r (c : ascii) :
  tolower c = "r"%char <-> c = "r"%char \/ c = "R"%char.
Proof.
  destruct c as [[] [] [] [] [] [] [] []]; vm_compute;
    (split; [intros H; first [discriminate H | auto]
            | intros [H|H]; first [discriminate H | reflexivity]]).
Qed.

Lemma tolower_u (c : ascii) :
  tolower c = "u"%char <-> c = "u"%char \/ c = "U"%char.
Proof.
  destruct c as [[] [] [] [] [] [] [] []]; vm_compute;
    (split; [intros H; first [discriminate H | auto]
            | intros [H|H]; first [discriminate H | reflexivity]]).
Qed.

Lemma tolower_e (c : ascii) :
  tolower c = "e"%char <-> c = "e"%char \/ c = "E"%char.
Proof.
  destruct c as [[] [] [] [] [] [] [] []]; vm_compute;
    (split; [intros H; first [discriminate H | auto]
            | intros [H|H]; first [discriminate H | reflexivity]]).
Qed.

(** X7.  The third argument turns the flag on exactly when it has four
    characters that spell "true" in any mix of capitals and small letters:
    sixteen spellings, and no other text, longer or shorter. *)
Theorem flag_spellings (prog can s : string) :
  parse_can_fd [prog; can; s] = true
  <-> exists a b c d,
      s = String a (String b (String c (String d EmptyString)))
      /\ (a = "t"%char \/ a = "T"%char)
      /\ (b = "r"%char \/ b = "R"%char)
      /\ (c = "u"%char \/ c = "U"%char)
      /\ (d = "e"%char \/ d = "E"%char).
Proof.
  unfold parse_can_fd. cbn [length Z.of_nat arg nth].
  change (Z.of_nat 3 =? 3) with true. cbv iota.
  rewrite String.eqb_eq. split.
  - destruct s as [|a [|b [|c [|d [|e s]]]]]; cbn [transform]; intros H;
      try discriminate H.
    injection H as Ha Hb Hc Hd.
    exists a, b, c, d. split; [reflexivity|].
    rewrite <- tolower_t, <- tolower_r, <- tolower_u, <- tolower_e. auto.
  - intros (a & b & c & d & -> & Ha & Hb & Hc & Hd). cbn [transform].
    apply tolower_t in Ha. apply tolower_r in Hb.
    apply tolower_u in Hc. apply tolower_e in Hd.
    rewrite Ha, Hb, Hc, Hd. reflexivity.
Qed.

Lemma flag_spellings_witness :
  parse_can_fd ["query_control_mode"; "can0"; "TrUe"] = true.
Proof.
  apply (flag_spellings "query_control_mode" "can0" "TrUe").
  exists "T"%char, "r"%char, "U"%char, "e"%char.
  repeat split; auto.
Defined.

(** ** What of the command line a run depends on *)

(** X8.  With a good argument count a run depends on the command line
    through the interface name and the value of the flag only: two command
    lines that agree on these give the same run of each program, whatever
    the program name and however the flag is spelled or left out. *)
Theorem only_interface_and_flag_matter
  (K : dm_motor_constants) (E : environment) (argv argv' : list string) :
  bad_argc argv = false ->
  bad_argc argv' = false ->
  arg argv 1 = arg argv' 1 ->
  parse_can_fd argv = parse_can_fd argv' ->
  QueryControlMode.main K E argv = QueryControlMode.main K E argv'
  /\ SetControlMode.main K E argv = SetControlMode.main K E argv'.
Proof.
  intros Hargc Hargc' Hcan Hfd.
  unfold QueryControlMode.main, SetControlMode.main.
  rewrite Hargc, Hargc', Hcan, Hfd. split; reflexivity.
Qed.

Lemma only_interface_and_flag_matter_witness :
  SetControlMode.main sample_constants (quiet_environment (Some 2))
    ["set_control_mode"; "can0"]
  = SetControlMode.main sample_constants (quiet_environment (Some 2))
      ["./build/set_control_mode"; "can0"; "yes"].
Proof.
  apply (only_interface_and_flag_matter sample_constants
           (quiet_environment (Some 2))
           ["set_control_mode"; "can0"]
           ["./build/set_control_mode"; "can0"; "yes"]);
    reflexivity.
Defined.

(** ** When the two programs show the same code *)

(** X9.  For a stored value in the range where both narrowings are
    defined, [0 <= x < 255.5], the two programs show the same code exactly
    when the fractional part of [x] is below one half; in particular an
    integer code from 0 to 255, such as the value a write has sent, is
    shown as itself by both. *)
Theorem codes_agree_iff_fraction_below_half (E : environment) (x : Q) :
  (0 <= x)%Q -> (x < 511 # 2)%Q ->
  (QueryControlMode.control_mode_code E x
   = SetControlMode.control_mode_code E x
   <-> (fraction x < 1 # 2)%Q)
  /\ (forall n, 0 <= n <= 255 -> x = inject_Z n ->
      QueryControlMode.control_mode_code E x = n
      /\ SetControlMode.control_mode_code E x = n).
Proof.
  intros Hpos Hhi.
  assert (Hs : Qle_bool 0 x = true) by (apply Qle_bool_iff; exact Hpos).
  assert (Habs : Qabs x == x) by (apply Qabs_pos; exact Hpos).
  pose proof (Qfloor_le x) as Hfl. pose proof (Qlt_floor x) as Hfu.
  rewrite inject_Z_plus in Hfu. change (inject_Z 1) with 1%Q in Hfu.
  assert (Hf0 : 0 <= Qfloor x).
  { change 0 with (Qfloor (inject_Z 0)). apply Qfloor_resp_le. exact Hpos. }
  assert (Hf255 : Qfloor x <= 255).
  { assert (H : (inject_Z (Qfloor x) < inject_Z 256)%Q).
    { change (inject_Z 256) with 256%Q. lra. }
    rewrite <- Zlt_Qlt in H. lia. }
  assert (Hset : SetControlMode.control_mode_code E x = Qfloor x).
  { unfold SetControlMode.control_mode_code, double_to_uint8, Qtrunc.
    rewrite Hs.
    destruct (Z.leb_spec 0 (Qfloor x)), (Z.leb_spec (Qfloor x) 255);
      cbn; try reflexivity; lia. }
  assert (Hr0 : 0 <= std_round x <= 255).
  { unfold std_round. rewrite Hs. split.
    - change 0 with (Qfloor (inject_Z 0)). apply Qfloor_resp_le.
      change (inject_Z 0) with 0%Q. lra.
    - assert (H : (inject_Z (Qfloor (x + (1 # 2))) < inject_Z 256)%Q).
      { pose proof (Qfloor_le (x + (1 # 2))).
        change (inject_Z 256) with 256%Q. lra. }
      rewrite <- Zlt_Qlt in H. lia. }
  assert (Hquery : QueryControlMode.control_mode_code E x = std_round x).
  { unfold QueryControlMode.control_mode_code, double_to_uint8.
    assert (Hz : Qtrunc (inject_Z (std_round x)) = std_round x).
    { unfold Qtrunc.
      destruct (Qle_bool 0 (inject_Z (std_round x)));
        [apply Qfloor_Z | apply Qceiling_Z]. }
    rewrite Hz.
    destruct (Z.leb_spec 0 (std_round x)), (Z.leb_spec (std_round x) 255);
      cbn; try reflexivity; lia. }
  assert (Hfrac : fraction x == x - inject_Z (Qfloor x)).
  { unfold fraction. rewrite (Qfloor_comp _ _ Habs), Habs. reflexivity. }
  split.
  - rewrite Hquery, Hset, Hfrac. split.
    + intros Heq. unfold std_round in Heq. rewrite Hs in Heq.
      pose proof (Qlt_floor (x + (1 # 2))) as Hu. rewrite Heq in Hu.
      rewrite inject_Z_plus in Hu. change (inject_Z 1) with 1%Q in Hu. lra.
    + intros Hlt. unfold std_round. rewrite Hs.
      apply Qfloor_unique; [lra|].
      rewrite inject_Z_plus. change (inject_Z 1) with 1%Q. lra.
  - intros n Hn ->. rewrite Hquery, Hset.
    unfold std_round. rewrite Hs. rewrite Qfloor_Z. split; [|reflexivity].
    apply Qfloor_unique.
    + lra.
    + rewrite inject_Z_plus. change (inject_Z 1) with 1%Q. lra.
Qed.

Lemma codes_agree_iff_fraction_below_half_witness :
  let E := quiet_environment None in
  QueryControlMode.control_mode_code E (inject_Z 3) = 3
  /\ SetControlMode.control_mode_code E (inject_Z 3) = 3.
Proof.
  intros E.
  destruct (codes_agree_iff_fraction_below_half E (inject_Z 3))
    as [_ Hint]; [vm_compute; discriminate | vm_compute; reflexivity |].
  apply (Hint 3); [lia | reflexivity].
Defined.

(** ** The calls follow the plan *)

(** X10.  In every run of either program the calls that can throw are an
    initial part of the plan of the program, so none is made twice and
    none out of order: the whole plan when none of them throws; the plan
    up to and including the first call that throws when one does, so none
    is made once an earlier one has thrown; and none at all for a bad
    argument count. *)
Theorem calls_follow_plan
  (K : dm_motor_constants) (E : environment) (argv : list string) :
  let fq := fallible_calls (trace_of (QueryControlMode.main K E argv)) in
  let fs := fallible_calls (trace_of (SetControlMode.main K E argv)) in
  let pq := QueryControlMode.plan K argv in
  let ps := SetControlMode.plan K E argv in
  fq `prefix_of` pq
  /\ fs `prefix_of` ps
  /\ (bad_argc argv = true -> fq = [] /\ fs = [])
  /\ (bad_argc argv = false ->
      (no_fault_below E (length pq) -> fq = pq)
      /\ (no_fault_below E (length ps) -> fs = ps)
      /\ forall k what, first_fault E k what ->
          ((k < length pq)%nat -> fq = take (S k) pq)
          /\ ((k < length ps)%nat -> fs = take (S k) ps)).
Proof.
  cbv zeta.
  destruct (bad_argc argv) eqn:Hargc.
  - unfold trace_of.
    rewrite (query_bad_argc K E argv Hargc), (set_bad_argc K E argv Hargc).
    cbn [snd]. change (fallible_calls [Cerr (usage argv)]) with (@nil call).
    split; [apply prefix_nil|]. split; [apply prefix_nil|].
    split; [auto | discriminate].
  - assert (Hq : no_fault_below E (length (QueryControlMode.plan K argv)) ->
                 fallible_calls (trace_of (QueryControlMode.main K E argv))
                 = QueryControlMode.plan K argv).
    { intros Hnone.
      destruct (query_run_ok K E argv Hargc Hnone) as [_ Hissued].
      unfold fallible_calls. rewrite Hissued. reflexivity. }
    assert (Hs : no_fault_below E (length (SetControlMode.plan K E argv)) ->
                 fallible_calls (trace_of (SetControlMode.main K E argv))
                 = SetControlMode.plan K E argv).
    { intros Hnone.
      destruct (set_run_ok K E argv Hargc Hnone) as (_ & Hissued & _).
      unfold fallible_calls. rewrite Hissued. unfold SetControlMode.plan.
      destruct (SetControlMode.target_valid K E); reflexivity. }
    assert (Hqf : forall k what, first_fault E k what ->
                  (k < length (QueryControlMode.plan K argv))%nat ->
                  fallible_calls (trace_of (QueryControlMode.main K E argv))
                  = take (S k) (QueryControlMode.plan K argv)).
    { intros k what Hf Hk.
      apply (query_run_fault K E argv Hargc k what Hf Hk). }
    assert (Hsf : forall k what, first_fault E k what ->
                  (k < length (SetControlMode.plan K E argv))%nat ->
                  fallible_calls (trace_of (SetControlMode.main K E argv))
                  = take (S k) (SetControlMode.plan K E argv)).
    { intros k what Hf Hk.
      apply (set_run_fault K E argv Hargc k what Hf Hk). }
    split; [|split; [|split; [discriminate|]]].
    + destruct (fault_or_not E (length (QueryControlMode.plan K argv)))
        as [Hnone|(k & what & Hk & Hf)].
      * rewrite (Hq Hnone). reflexivity.
      * rewrite (Hqf k what Hf Hk). apply prefix_take.
    + destruct (fault_or_not E (length (SetControlMode.plan K E argv)))
        as [Hnone|(k & what & Hk & Hf)].
      * rewrite (Hs Hnone). reflexivity.
      * rewrite (Hsf k what Hf Hk). apply prefix_take.
    + intros _. split; [exact Hq|]. split; [exact Hs|].
      intros k what Hf. split; [apply (Hqf k what Hf) | apply (Hsf k what Hf)].
Qed.

Lemma calls_follow_plan_witness :
  fallible_calls
    (trace_of (SetControlMode.main sample_constants
                 (faulty_environment (Some 2) 5 "write failed") sample_argv))
  = [COpenArm "can0" false;
     CInitArmMotors motor_types send_can_ids recv_can_ids;
     CInitGripperMotor DM4310 0x08 0x18;
     CQueryParamAll 10; CRecvAll 2000;
     CWriteParamAll 10 (inject_Z 2)].
Proof.
  destruct (calls_follow_plan sample_constants
              (faulty_environment (Some 2) 5 "write failed") sample_argv)
    as (_ & _ & _ & Hgood).
  destruct (Hgood eq_refl) as (_ & _ & Hfault).
  destruct (Hfault 5%nat "write failed") as [_ Hs].
  { split; [|reflexivity].
    intros k Hk. cbn. destruct (Nat.eqb_spec k 5); [lia | reflexivity]. }
  rewrite Hs; [reflexivity | vm_compute; lia].
Defined.

(** ** The report of the motors *)











(** ** The listing for any sentinels *)

Lemma size_t_bounds (z : Z) : 0 <= size_t z < 2 ^ 64.
Proof. unfold size_t. apply Z.mod_pos_bound. lia. Qed.

(** From a start that is not negative the loop visits the integers up to
    the bound as converted to [size_t], whatever the bound. *)
Lemma size_t_range_any (hi : Z) (n : nat) :
  forall lo : Z, 0 <= lo -> Z.to_nat (size_t hi - lo) = n ->
    size_t_range lo hi = seqZ lo (size_t hi - lo).
Proof.
  pose proof (size_t_bounds hi) as Hhi.
  induction n as [|n IH]; intros lo Hlo Hn; simp size_t_range;
    destruct (Z_lt_dec lo (size_t hi)) as [Hlt|Hge]; cbn.
  - lia.
  - rewrite seqZ_nil by lia. reflexivity.
  - rewrite (seqZ_cons lo) by lia.
    rewrite (size_t_small (lo + 1)) by lia.
    rewrite IH by lia. f_equal. f_equal; lia.
  - lia.
Qed.

(** X12.  Whatever integers the two sentinels stand for, the loop of the
    listing starts at [minMode + 1] taken in [size_t] and prints one line
    for each integer from there up to, and not including, [maxMode] taken
    in [size_t]: it prints nothing when that bound is not above the start,
    and a sentinel that is negative is listed against as the large
    [size_t] value it converts to. *)
Theorem listing_for_any_sentinels (K : dm_motor_constants) (w : world) :
  let start := size_t (size_t (minMode K) + 1) in
  let bound := size_t (maxMode K) in
  print_available_modes K w
  = (Ok tt, w,
     Cout ("Available modes:" ++ nl)
     :: map (fun c => Cout (mode_line K c)) (seqZ start (bound - start)))
  /\ (bound <= start ->
      print_available_modes K w = (Ok tt, w, [Cout ("Available modes:" ++ nl)]))
  /\ (minMode K = -1 -> start = 0)
  /\ (maxMode K < 0 -> - 2 ^ 64 <= maxMode K -> bound = 2 ^ 64 + maxMode K).
Proof.
  cbv zeta.
  assert (Hrun : print_available_modes K w
    = (Ok tt, w,
       Cout ("Available modes:" ++ nl)
       :: map (fun c => Cout (mode_line K c))
            (seqZ (size_t (size_t (minMode K) + 1))
               (size_t (maxMode K) - size_t (size_t (minMode K) + 1))))).
  { unfold print_available_modes, bind, cout at 1.
    rewrite for_each_cout.
    rewrite (size_t_range_any (maxMode K)
               (Z.to_nat (size_t (maxMode K)
                          - size_t (size_t (minMode K) + 1))))
      by (try reflexivity; apply size_t_bounds).
    reflexivity. }
  split; [exact Hrun|]. split; [|split].
  - intros Hle. rewrite Hrun, seqZ_nil by lia. reflexivity.
  - intros ->. reflexivity.
  - intros Hneg Hlow. unfold size_t.
    rewrite <- (Z.mod_add (maxMode K) 1 (2 ^ 64)) by lia.
    rewrite Z.mod_small by lia. lia.
Qed.

Lemma listing_for_any_sentinels_witness :
  print_available_modes
    {| minMode := 5; maxMode := 5;
       GetMotorControlModeString := sample_mode_name; CTRL_MODE := 10 |}
    initial_world
  = (Ok tt, initial_world, [Cout ("Available modes:" ++ nl)]).
Proof.
  destruct (listing_for_any_sentinels
              {| minMode := 5; maxMode := 5;
                 GetMotorControlModeString := sample_mode_name;
                 CTRL_MODE := 10 |} initial_world) as (_ & Hempty & _).
  apply Hempty. vm_compute. discriminate.
Defined.
